(** * SOST band suite: the CI driver [scripts/ci_band_suite.py] and the
      import smoke test [tests/test_import_sost.py]

    A shallow embedding of the two Python files.  The driver is a
    sequential script over a file system and one external program, so it
    is embedded in a small state-and-exception monad over a [world]
    holding the file system, the state of everything outside the driver,
    and a ghost trace of the driver's own effects.  What Python's
    libraries and the operating system provide (the subprocess, [glob],
    SHA-256, [json.dumps], the clock) is gathered in the [Platform]
    class; the driver is written once for every platform. *)

From Stdlib Require Import ZArith List Ascii String DecimalString Decimal Lia.
From Stdlib Require Import Sorted Permutation.
From stdpp Require Import gmap strings list.
Import ListNotations.
Open Scope string_scope.
Open Scope list_scope.

(* ================================================================== *)
(** * Strings *)

(** The line feed of the ["\n"] literals. *)
Definition nl : string := String (ascii_of_nat 10) EmptyString.

(** Python's [needle in hay] on [str]. *)
Fixpoint str_in (needle hay : string) : bool :=
  String.prefix needle hay ||
  match hay with
  | EmptyString => false
  | String _ rest => str_in needle rest
  end.

(** Python's [sep.join(parts)]. *)
Fixpoint join (sep : string) (parts : list string) : string :=
  match parts with
  | [] => EmptyString
  | [s] => s
  | s :: rest => s +:+ sep +:+ join sep rest
  end.

(** Python's [s.split(sep)] for a one-character separator. *)
Fixpoint split_on (sep : ascii) (s : string) : list string :=
  match s with
  | EmptyString => [EmptyString]
  | String c rest =>
      if Ascii.eqb c sep then EmptyString :: split_on sep rest
      else match split_on sep rest with
           | [] => [String c EmptyString]
           | w :: ws => String c w :: ws
           end
  end.

(** [str(z)] of a Python [int], as an f-string prints it. *)
Definition str_of_int (z : Z) : string := NilZero.string_of_int (Z.to_int z).

Definition str_of_nat (n : nat) : string := NilZero.string_of_uint (Nat.to_uint n).

(** The truth value Python gives a string or [None] in [if x:]. *)
Definition str_truthy (s : string) : bool :=
  match s with EmptyString => false | String _ _ => true end.

Definition opt_truthy (o : option string) : bool :=
  match o with None => false | Some s => str_truthy s end.

(* ================================================================== *)
(** * [pathlib]: absolute paths as lists of components *)

Abbreviation path := (list string).

(** [str(p)] *)
Definition path_str (p : path) : string := "/" +:+ join "/" p.

(** [p.name] *)
Definition path_name (p : path) : string := List.last p EmptyString.

(** [name.rfind('.')], [None] for -1. *)
Fixpoint rfind_dot (s : string) : option nat :=
  match s with
  | EmptyString => None
  | String c rest =>
      match rfind_dot rest with
      | Some i => Some (S i)
      | None => if Ascii.eqb c "." then Some 0%nat else None
      end
  end.

(** [p.stem]: the name up to its last dot, when that dot is neither the
    first nor the last character. *)
Definition path_stem (p : path) : string :=
  let name := path_name p in
  match rfind_dot name with
  | Some i =>
      if (0 <? i)%nat && (i <? String.length name - 1)%nat
      then substring 0 i name else name
  | None => name
  end.

(** The order of [sorted] on paths: component by component, each
    component by code points. *)
Fixpoint path_leb (p q : path) : bool :=
  match p, q with
  | [], _ => true
  | _ :: _, [] => false
  | a :: p', b :: q' =>
      match String.compare a b with
      | Lt => true
      | Gt => false
      | Eq => path_leb p' q'
      end
  end.

Fixpoint insert_sorted (x : path) (l : list path) : list path :=
  match l with
  | [] => [x]
  | y :: rest => if path_leb y x then y :: insert_sorted x rest else x :: l
  end.

(** [sorted(paths)] (stable). *)
Definition sorted (l : list path) : list path :=
  fold_left (fun acc x => insert_sorted x acc) l [].

(* ================================================================== *)
(** * The file system *)

Inductive node :=
| File (content : string)
| Dir.

Abbreviation fs := (gmap path node).

Inductive exn :=
| FileExistsError (p : path)
| FileNotFoundError (p : path)
| NotADirectoryError (p : path)
| IsADirectoryError (p : path).

(** The root is a directory of every file system. *)
Definition fs_lookup (m : fs) (p : path) : option node :=
  match p with
  | [] => Some Dir
  | _ => m !! p
  end.

(** [p.exists()] *)
Definition fs_exists (m : fs) (p : path) : bool :=
  match fs_lookup m p with Some _ => true | None => false end.

(** [p.mkdir(parents=True, exist_ok=True)]: walk down from the root,
    creating what is missing; a regular file in the way is an error. *)
Fixpoint mkdir_walk (done todo : path) (m : fs) : exn + fs :=
  match todo with
  | [] => inr m
  | c :: rest =>
      let q := done ++ [c] in
      match m !! q with
      | Some Dir => mkdir_walk q rest m
      | Some (File _) =>
          inl (match rest with
               | [] => FileExistsError q
               | _ => NotADirectoryError q
               end)
      | None => mkdir_walk q rest (<[q := Dir]> m)
      end
  end.

Definition fs_mkdir_parents (m : fs) (p : path) : exn + fs :=
  mkdir_walk [] p m.

(** [p.write_text(s)]: the parent must be a directory and [p] must not
    be one; the file is created or replaced. *)
Definition fs_write_text (m : fs) (p : path) (s : string) : exn + fs :=
  match p with
  | [] => inl (IsADirectoryError p)
  | _ =>
      match fs_lookup m (removelast p) with
      | None => inl (FileNotFoundError p)
      | Some (File _) => inl (NotADirectoryError p)
      | Some Dir =>
          match m !! p with
          | Some Dir => inl (IsADirectoryError p)
          | _ => inr (<[p := File s]> m)
          end
      end
  end.

(** [p.read_bytes()] *)
Definition fs_read_bytes (m : fs) (p : path) : exn + string :=
  match fs_lookup m p with
  | Some (File c) => inr c
  | Some Dir => inl (IsADirectoryError p)
  | None => inl (FileNotFoundError p)
  end.

(* ================================================================== *)
(** * JSON values and the clock *)

#[warnings="-register-all"]
Inductive json :=
| JNull
| JInt (z : Z)
| JStr (s : string)
| JArr (items : list json)
| JObj (members : list (string * json)).

Record datetime := DateTime {
  dt_year : nat; dt_month : nat; dt_day : nat;
  dt_hour : nat; dt_minute : nat; dt_second : nat;
  dt_microsecond : nat
}.

(** [%0<width>d] *)
Definition zero_pad (width n : nat) : string :=
  let s := str_of_nat n in
  String.concat EmptyString (repeat "0" (width - String.length s)) +:+ s.

(** [d.isoformat()] of a [datetime] whose [tzinfo] is [timezone.utc]:
    the fraction is printed only when it is not zero, the offset is
    always [+00:00]. *)
Definition isoformat (d : datetime) : string :=
  zero_pad 4 (dt_year d) +:+ "-" +:+ zero_pad 2 (dt_month d) +:+ "-" +:+
  zero_pad 2 (dt_day d) +:+ "T" +:+ zero_pad 2 (dt_hour d) +:+ ":" +:+
  zero_pad 2 (dt_minute d) +:+ ":" +:+ zero_pad 2 (dt_second d) +:+
  (if (dt_microsecond d =? 0)%nat then EmptyString
   else "." +:+ zero_pad 6 (dt_microsecond d)) +:+
  "+00:00".

(* ================================================================== *)
(** * Effects *)

(** What the driver does to, and learns from, the outside, in the order
    it happens.  The trace is ghost state: nothing reads it. *)
Inductive event :=
| EvMkdir (p : path)
| EvExists (p : path) (found : bool)
| EvRead (p : path) (bytes : string)
| EvWrite (p : path) (s : string)
| EvSpawn (cmd : list string) (cwd : path) (env : gmap string string)
          (code : Z) (out : string)
| EvGlob (repo : path) (pat : string) (matched : list path)
| EvNow (d : datetime)
| EvPrint (s : string).

(** The commands run, each with its return code. *)
Definition spawns (tr : list event) : list (list string * Z) :=
  flat_map (fun e => match e with
                     | EvSpawn cmd _ _ code _ => [(cmd, code)]
                     | _ => []
                     end) tr.

(** The output captured from each command run. *)
Definition outputs (tr : list event) : list string :=
  flat_map (fun e => match e with
                     | EvSpawn _ _ _ _ out => [out]
                     | _ => []
                     end) tr.

(** The files written, each with what was written. *)
Definition writes (tr : list event) : list (path * string) :=
  flat_map (fun e => match e with
                     | EvWrite p s => [(p, s)]
                     | _ => []
                     end) tr.

(** What was written to [p], oldest first. *)
Definition written_to (p : path) (tr : list event) : list string :=
  flat_map (fun e => match e with
                     | EvWrite q s => if decide (q = p) then [s] else []
                     | _ => []
                     end) tr.

(** The working directory and the environment of each command run. *)
Definition spawn_contexts (tr : list event)
    : list (path * gmap string string) :=
  flat_map (fun e => match e with
                     | EvSpawn _ cwd env _ _ => [(cwd, env)]
                     | _ => []
                     end) tr.

(** The results of the glob calls. *)
Definition globs (tr : list event) : list (list path) :=
  flat_map (fun e => match e with
                     | EvGlob _ _ matched => [matched]
                     | _ => []
                     end) tr.

(** The paths probed with [exists], each with the answer. *)
Definition probes (tr : list event) : list (path * bool) :=
  flat_map (fun e => match e with
                     | EvExists p found => [(p, found)]
                     | _ => []
                     end) tr.

(* ================================================================== *)
(** * The platform *)

(** What the interpreter, its libraries and the machine give the driver.
    [ext] is the state of everything but the file system (the clock, the
    state of other programs); the external program reads and writes both. *)
Class Platform := {
  ext : Type;
  (** [sys.executable] *)
  executable : string;
  (** [subprocess.run(cmd, cwd, env, stdout=PIPE, stderr=STDOUT, text=True)]:
      the return code and the decoded output, and what the child left
      behind. *)
  spawn : list string -> path -> gmap string string ->
          ext -> fs -> Z * string * ext * fs;
  (** [(base / s).resolve()]: the join as the operating system resolves
      it, symbolic links followed.  The links are the platform's: [fs]
      holds directories and regular files under their resolved paths. *)
  resolve : path -> string -> path;
  (** [repo.glob(pattern)] *)
  glob : fs -> path -> string -> list path;
  (** [hashlib.sha256(bytes).hexdigest()] *)
  sha256_hexdigest : string -> string;
  (** [json.dumps(v, indent=2, ensure_ascii=False)] *)
  json_dumps : json -> string;
  (** [datetime.now(timezone.utc)] *)
  now_utc : ext -> datetime
}.

(* ================================================================== *)
(** * [ci_band_suite.py] *)

Section Driver.
Context `{P : Platform}.

Record world := World {
  w_ext : ext;
  w_fs : fs;
  w_trace : list event
}.

Inductive outcome (A : Type) :=
| Done (a : A) (w : world)
| Raised (e : exn) (w : world).
Arguments Done {A} a w.
Arguments Raised {A} e w.

Definition M (A : Type) : Type := world -> outcome A.

Definition ret {A} (a : A) : M A := fun w => Done a w.

Definition bind {A B} (c : M A) (k : A -> M B) : M B :=
  fun w =>
    match c w with
    | Done a w' => k a w'
    | Raised e w' => Raised e w'
    end.

Notation "'let*' x ':=' c 'in' k" := (bind c (fun x => k))
  (at level 10, x pattern, c at level 100, k at level 200).
Notation "c ;; k" := (bind c (fun _ => k))
  (at level 100, k at level 200, right associativity).

Definition log_event (e : event) (w : world) : world :=
  World (w_ext w) (w_fs w) (w_trace w ++ [e]).

Definition set_fs (m : fs) (w : world) : world :=
  World (w_ext w) m (w_trace w).

Definition mkdir_parents (p : path) : M unit :=
  fun w =>
    match fs_mkdir_parents (w_fs w) p with
    | inr m => Done tt (log_event (EvMkdir p) (set_fs m w))
    | inl e => Raised e w
    end.

Definition write_text (p : path) (s : string) : M unit :=
  fun w =>
    match fs_write_text (w_fs w) p s with
    | inr m => Done tt (log_event (EvWrite p s) (set_fs m w))
    | inl e => Raised e w
    end.

Definition read_bytes (p : path) : M string :=
  fun w =>
    match fs_read_bytes (w_fs w) p with
    | inr c => Done c (log_event (EvRead p c) w)
    | inl e => Raised e w
    end.

Definition path_exists (p : path) : M bool :=
  fun w =>
    let found := fs_exists (w_fs w) p in
    Done found (log_event (EvExists p found) w).

Definition print (s : string) : M unit :=
  fun w => Done tt (log_event (EvPrint s) w).

Definition glob_sorted (repo : path) (pattern : string) : M (list path) :=
  fun w =>
    let matched := glob (w_fs w) repo pattern in
    Done (sorted matched) (log_event (EvGlob repo pattern matched) w).

Definition utc_now : M datetime :=
  fun w =>
    let d := now_utc (w_ext w) in
    Done d (log_event (EvNow d) w).

(** [sha256_file] *)
Definition sha256_file (p : path) : M string :=
  let* bytes := read_bytes p in
  ret (sha256_hexdigest bytes).

(** [run_capture] *)
Definition run_capture (cmd : list string) (cwd : path)
    (env : gmap string string) : M (Z * string) :=
  fun w =>
    let '(rc, out, x, m) := spawn cmd cwd env (w_ext w) (w_fs w) in
    Done (rc, out) (World x m (w_trace w ++ [EvSpawn cmd cwd env rc out])).

Definition help_cmd (script : path) : list string :=
  [executable; path_str script; "--help"].

(** [read_help] *)
Definition read_help (script repo : path) (env : gmap string string)
    : M string :=
  let* (rc, out) := run_capture (help_cmd script) repo env in
  if str_truthy out then ret out else ret EmptyString.

Definition input_candidates : list string :=
  ["--input-csv"; "--input_csv"; "--input"; "-i"].

Definition outdir_candidates : list string :=
  ["--outdir"; "--out-dir"; "--output-dir"; "-o"].

(** The loop [for cand in cands: if cand in help_text: flag = cand; break]
    started from [flag = None]. *)
Fixpoint first_candidate (cands : list string) (help_text : string)
    : option string :=
  match cands with
  | [] => None
  | cand :: rest =>
      if str_in cand help_text then Some cand
      else first_candidate rest help_text
  end.

(** [pick_flags] *)
Definition pick_flags (help_text : string) : option string * option string :=
  (first_candidate input_candidates help_text,
   first_candidate outdir_candidates help_text).

Record ReportEntry := mkReportEntry {
  re_path : string;
  re_sha256 : string
}.

(** [BandResult] *)
Record BandResult := mkBandResult {
  band : string;
  csv : string;
  rc : Z;
  outdir : string;
  reports : list (string * ReportEntry);
  log_file : string
}.

(** [d[k] = v] on an insertion-ordered dict. *)
Fixpoint dict_set {V} (k : string) (v : V) (d : list (string * V))
    : list (string * V) :=
  match d with
  | [] => [(k, v)]
  | (k', v') :: rest =>
      if String.eqb k' k then (k', v) :: rest
      else (k', v') :: dict_set k v rest
  end.

Fixpoint dict_get {V} (k : string) (d : list (string * V)) : option V :=
  match d with
  | [] => None
  | (k', v) :: rest => if String.eqb k' k then Some v else dict_get k rest
  end.

Definition report_names : list string :=
  ["dd_report.json"; "ddr_report.json"; "e_report.json"].

(** The report loop of [main], lines 123-127. *)
Fixpoint collect_reports (band_out : path) (names : list string)
    (acc : list (string * ReportEntry)) : M (list (string * ReportEntry)) :=
  match names with
  | [] => ret acc
  | name :: rest =>
      let p := band_out ++ [name] in
      let* there := path_exists p in
      if there : bool then
        let* h := sha256_file p in
        collect_reports band_out rest
          (dict_set name (mkReportEntry (path_str p) h) acc)
      else collect_reports band_out rest acc
  end.

(** The command line of one fixture, lines 109-116. *)
Definition build_cmd (run_sost : path) (input_flag outdir_flag : option string)
    (csv_path band_out : path) : list string :=
  let cmd := [executable; path_str run_sost] in
  let cmd :=
    match input_flag with
    | Some f => if str_truthy f then cmd ++ [f; path_str csv_path]
                else cmd ++ [path_str csv_path]
    | None => cmd ++ [path_str csv_path]
    end in
  match outdir_flag with
  | Some f => if str_truthy f then cmd ++ [f; path_str band_out] else cmd
  | None => cmd
  end.

Definition failure_line (b : string) (code : Z) (csv_path : path) : string :=
  b +:+ " rc=" +:+ str_of_int code +:+ " csv=" +:+ path_str csv_path.

(** The body of the loop over [csv_files], lines 105-141; the state is
    the pair of lists [results] and [failures]. *)
Definition run_band (repo out run_sost : path) (env : gmap string string)
    (input_flag outdir_flag : option string)
    (st : list BandResult * list string) (csv_path : path)
    : M (list BandResult * list string) :=
  let '(results, failures) := st in
  let b := path_stem csv_path in
  let band_out := out ++ ["sost_out_" +:+ b] in
  mkdir_parents band_out ;;
  let cmd := build_cmd run_sost input_flag outdir_flag csv_path band_out in
  let* (code, log) := run_capture cmd repo env in
  let log_path := out ++ [b +:+ ".log"] in
  write_text log_path log ;;
  let* reps := collect_reports band_out report_names [] in
  let results := results ++
    [mkBandResult b (path_str csv_path) code (path_str band_out) reps
                  (path_str log_path)] in
  let failures :=
    if (code =? 0)%Z then failures
    else failures ++ [failure_line b code csv_path] in
  ret (results, failures).

(** [for x in xs: st = body(st, x)] *)
Fixpoint for_each {A S} (body : S -> A -> M S) (xs : list A) (st : S) : M S :=
  match xs with
  | [] => ret st
  | x :: rest => let* st' := body st x in for_each body rest st'
  end.

(** [sum(1 for r in results if keep(r))] *)
Definition count_if (keep : BandResult -> bool) (results : list BandResult)
    : Z :=
  fold_left Z.add (map (fun _ => 1%Z) (List.filter keep results)) 0%Z.

(** The [summary] dict of lines 143-151. *)
Record Summary := mkSummary {
  timestamp_utc : string;
  pattern : string;
  total : Z;
  ok : Z;
  failed : Z;
  bands : list BandResult;
  run_sost_help_detect : option string * option string
}.

Definition make_summary (now : datetime) (pat : string)
    (results : list BandResult) (flags : option string * option string)
    : Summary :=
  mkSummary (isoformat now) pat
    (Z.of_nat (length results))
    (count_if (fun r => (rc r =? 0)%Z) results)
    (count_if (fun r => negb (rc r =? 0)%Z) results)
    results flags.

Definition json_opt (o : option string) : json :=
  match o with Some s => JStr s | None => JNull end.

Definition report_json (e : ReportEntry) : json :=
  JObj [("path", JStr (re_path e)); ("sha256", JStr (re_sha256 e))].

(** [r.__dict__] *)
Definition band_json (r : BandResult) : json :=
  JObj [("band", JStr (band r)); ("csv", JStr (csv r)); ("rc", JInt (rc r));
        ("outdir", JStr (outdir r));
        ("reports", JObj (map (fun kv => (fst kv, report_json (snd kv)))
                              (reports r)));
        ("log_file", JStr (log_file r))].

Definition summary_json (s : Summary) : json :=
  JObj [("timestamp_utc", JStr (timestamp_utc s));
        ("pattern", JStr (pattern s));
        ("total", JInt (total s));
        ("ok", JInt (ok s));
        ("failed", JInt (failed s));
        ("bands", JArr (map band_json (bands s)));
        ("run_sost_help_detect",
         JObj [("input_flag", json_opt (fst (run_sost_help_detect s)));
               ("outdir_flag", json_opt (snd (run_sost_help_detect s)))])].

Definition failures_path (out : path) : path := out ++ ["band_suite_failures.txt"].
Definition summary_path (out : path) : path := out ++ ["band_suite_summary.json"].

(** The environment handed to the child, lines 87-88. *)
Definition child_env (repo : path) (environ : gmap string string)
    : gmap string string :=
  <["PYTHONPATH" :=
      path_str repo +:+
      match environ !! "PYTHONPATH" with
      | Some old => ":" +:+ old
      | None => EmptyString
      end]> environ.

(** Lines 101-167: from the loop to the exit status. *)
Definition run_suite (repo out run_sost : path) (env : gmap string string)
    (pat : string) (flags : option string * option string)
    (csv_files : list path) : M Z :=
  let* (results, failures) :=
      for_each (run_band repo out run_sost env (fst flags) (snd flags))
               csv_files ([], []) in
  let* now := utc_now in
  let summary := make_summary now pat results flags in
  write_text (summary_path out) (json_dumps (summary_json summary)) ;;
  match failures with
  | _ :: _ =>
      write_text (failures_path out) (join nl failures +:+ nl) ;;
      print "Band suite FAILED:" ;;
      print (join nl failures) ;;
      ret 1%Z
  | [] =>
      print ("Band suite OK: " +:+ str_of_int (ok summary) +:+ "/" +:+
             str_of_int (total summary)) ;;
      ret 0%Z
  end.

(** [main]; [args_pattern] and [args_outdir] are the parsed arguments,
    [cwd] the resolved current directory and [environ] is [os.environ]. *)
Definition main (args_pattern args_outdir : string) (cwd : path)
    (environ : gmap string string) : M Z :=
  let repo := cwd in
  let out := resolve repo args_outdir in
  mkdir_parents out ;;
  let run_sost := repo ++ ["scripts"; "run_sost.py"] in
  let* there := path_exists run_sost in
  if negb there then
    write_text (failures_path out) ("Missing scripts/run_sost.py" +:+ nl) ;;
    print "Missing scripts/run_sost.py" ;;
    ret 2%Z
  else
    let env := child_env repo environ in
    let* help_text := read_help run_sost repo env in
    let flags := pick_flags help_text in
    let* csv_files := glob_sorted repo args_pattern in
    match csv_files with
    | [] =>
        write_text (failures_path out)
          ("No CSV matched pattern: " +:+ args_pattern +:+ nl) ;;
        print ("No CSV matched pattern: " +:+ args_pattern) ;;
        ret 2%Z
    | _ :: _ => run_suite repo out run_sost env args_pattern flags csv_files
    end.

End Driver.

Arguments Done {P A} a w.
Arguments Raised {P A} e w.

(** One run of the script: [main] from a fresh trace. *)
Definition run `{P : Platform} (args_pattern args_outdir : string)
    (cwd : path) (environ : gmap string string) (x : ext) (m : fs)
    : outcome Z :=
  main args_pattern args_outdir cwd environ (World x m []).

(** The world an outcome leaves, whether it returned or raised. *)
Definition final_world `{P : Platform} {A} (o : outcome A) : world :=
  match o with
  | Done _ w => w
  | Raised _ w => w
  end.

(** The value an outcome returned, [d] when it raised. *)
Definition returned `{P : Platform} {A} (o : outcome A) (d : A) : A :=
  match o with
  | Done a _ => a
  | Raised _ _ => d
  end.

(** A band is failing when its return code is not zero. *)
Definition failing (r : BandResult) : bool := negb (rc r =? 0)%Z.

(** The line of a band in the failure list, from its record. *)
Definition band_failure_line (r : BandResult) : string :=
  band r +:+ " rc=" +:+ str_of_int (rc r) +:+ " csv=" +:+ csv r.

(** The command line of a fixture when no flag was detected. *)
Definition positional_cmd `{P : Platform} (run_sost csv_path : path)
    : list string :=
  [executable; path_str run_sost; path_str csv_path].

(** The entry a report file gets in a band's [reports]. *)
Definition report_entry `{P : Platform} (m : fs) (band_out : path)
    (name : string) : option ReportEntry :=
  match m !! (band_out ++ [name]) with
  | Some (File bytes) =>
      Some (mkReportEntry (path_str (band_out ++ [name]))
                          (sha256_hexdigest bytes))
  | _ => None
  end.

(** [needle] occurs somewhere in [hay]. *)
Definition occurs (needle hay : string) : Prop :=
  exists before after, hay = before +:+ needle +:+ after.

(** [c] is the first of [cands], in their order, to occur in [text]. *)
Definition first_occurring (cands : list string) (text c : string) : Prop :=
  exists earlier later,
    cands = earlier ++ c :: later /\ occurs c text /\
    Forall (fun c' => ~ occurs c' text) earlier.

(** The output directory and the log file of the fixture [c]. *)
Definition band_dir (out c : path) : path :=
  out ++ ["sost_out_" +:+ path_stem c].

Definition band_log (out c : path) : path :=
  out ++ [path_stem c +:+ ".log"].

(** The command line of the fixture [c] under the detected [flags]. *)
Definition fixture_cmd `{P : Platform} (run_sost : path)
    (flags : option string * option string) (out c : path) : list string :=
  build_cmd run_sost (fst flags) (snd flags) c (band_dir out c).

(** The three probes of the report loop in the file system [m]. *)
Definition report_probes (m : fs) (band_out : path) : list (path * bool) :=
  map (fun n => (band_out ++ [n], fs_exists m (band_out ++ [n])))
      report_names.

(** The external program leaves the entry at [q] as it found it. *)
Definition tool_keeps `{P : Platform} (q : path) : Prop :=
  forall cmd cwd env x m, snd (spawn cmd cwd env x m) !! q = m !! q.

(** What the loop over the fixtures [csvs] leaves: the records [rs], one
    per fixture and in their order, and the events [evs]. *)
Definition loop_result `{P : Platform} (run_sost : path)
    (flags : option string * option string) (out : path)
    (csvs : list path) (rs : list BandResult) (evs : list event) : Prop :=
  map band rs = map path_stem csvs /\
  map csv rs = map path_str csvs /\
  spawns evs = combine (map (fixture_cmd run_sost flags out) csvs)
                       (map rc rs) /\
  map fst (writes evs) = map (band_log out) csvs /\
  globs evs = [].

(** The failure lines of the records [rs], and the text of the failure
    list made of them. *)
Definition failure_lines (rs : list BandResult) : list string :=
  map band_failure_line (List.filter failing rs).

Definition failures_text (rs : list BandResult) : string :=
  join nl (failure_lines rs) +:+ nl.

(** The text of the summary file for the records [rs]. *)
Definition summary_text `{P : Platform} (pat : string)
    (flags : option string * option string) (now : datetime)
    (rs : list BandResult) : string :=
  json_dumps (summary_json (make_summary now pat rs flags)).

(** The output root and the external tool of a run started in [cwd]. *)
Definition out_root `{P : Platform} (cwd : path) (args_outdir : string)
    : path :=
  resolve cwd args_outdir.

Definition tool_path (cwd : path) : path := cwd ++ ["scripts"; "run_sost.py"].

Definition missing_note : string := "Missing scripts/run_sost.py" +:+ nl.

Definition no_match_note (pat : string) : string :=
  "No CSV matched pattern: " +:+ pat +:+ nl.

(** The events of a run up to and including the glob, when the tool is
    there: the help probe returned [hrc] and printed [hout]. *)
Definition head_events `{P : Platform} (args_pattern args_outdir : string)
    (cwd : path) (environ : gmap string string) (hrc : Z) (hout : string)
    (matched : list path) : list event :=
  [EvMkdir (out_root cwd args_outdir);
   EvExists (tool_path cwd) true;
   EvSpawn (help_cmd (tool_path cwd)) cwd (child_env cwd environ) hrc hout;
   EvGlob cwd args_pattern matched].

(** The events of a run after the loop, when no band failed and when
    some band failed. *)
Definition passed_events `{P : Platform} (out : path) (pat : string)
    (flags : option string * option string) (now : datetime)
    (rs : list BandResult) : list event :=
  [EvNow now;
   EvWrite (summary_path out) (summary_text pat flags now rs);
   EvPrint ("Band suite OK: " +:+
            str_of_int (ok (make_summary now pat rs flags)) +:+ "/" +:+
            str_of_int (total (make_summary now pat rs flags)))].

Definition failed_events `{P : Platform} (out : path) (pat : string)
    (flags : option string * option string) (now : datetime)
    (rs : list BandResult) : list event :=
  [EvNow now;
   EvWrite (summary_path out) (summary_text pat flags now rs);
   EvWrite (failures_path out) (failures_text rs);
   EvPrint "Band suite FAILED:";
   EvPrint (join nl (failure_lines rs))].

(** The whole trace of a run that reached the aggregation and returned
    [code]: the head, the events [evs] of the loop, then the tail. *)
Definition suite_trace `{P : Platform} (args_pattern args_outdir : string)
    (cwd : path) (environ : gmap string string) (hrc : Z) (hout : string)
    (matched : list path) (rs : list BandResult) (evs : list event)
    (now : datetime) (code : Z) : list event :=
  head_events args_pattern args_outdir cwd environ hrc hout matched ++
  evs ++
  (if (code =? 0)%Z
   then passed_events (out_root cwd args_outdir) args_pattern
                      (pick_flags hout) now rs
   else failed_events (out_root cwd args_outdir) args_pattern
                      (pick_flags hout) now rs).

(** The paths a record carries are those of its band's name. *)
Definition named_after_band (out : path) (r : BandResult) : Prop :=
  outdir r = path_str (out ++ ["sost_out_" +:+ band r]) /\
  log_file r = path_str (out ++ [band r +:+ ".log"]).

(** The non-strict order [path_leb] decides. *)
Definition path_le (p q : path) : Prop := path_leb p q = true.

(* ================================================================== *)
(** * A small platform to run the driver on *)

Module Demo.

Definition usage : string :=
  "usage: run_sost.py [-h] --input-csv INPUT_CSV --outdir OUTDIR".

Definition path_of_str (s : string) : path :=
  List.filter str_truthy (split_on "/" s).

(** A stand-in for [run_sost.py]: it prints [help] when asked; on a
    fixture holding [bad] it exits 1; otherwise it exits 0 and, when it
    was given an output directory, leaves [dd_report.json] there. *)
Definition fake_tool (help : string) (cmd : list string) (cwd : path)
    (env : gmap string string) (x : datetime) (m : fs)
    : Z * string * datetime * fs :=
  if existsb (String.eqb "--help") cmd then (0%Z, help, x, m)
  else
    match List.filter (String.prefix "/") (skipn 2 cmd) with
    | csv_arg :: rest =>
        match m !! path_of_str csv_arg with
        | Some (File c) =>
            if String.eqb c "bad" then (1%Z, "error: bad band", x, m)
            else (0%Z, "done", x,
                  match rest with
                  | o :: _ =>
                      <[path_of_str o ++ ["dd_report.json"] :=
                          File ("report on " +:+ c)]> m
                  | [] => m
                  end)
        | _ => (2%Z, "error: no such file", x, m)
        end
    | [] => (2%Z, "usage error", x, m)
    end.

Definition ends_with (suffix s : string) : bool :=
  String.prefix (String.rev suffix) (String.rev s).

(** A name against a pattern with at most one [*]. *)
Definition star_match (pat name : string) : bool :=
  match split_on "*" pat with
  | [exact] => String.eqb exact name
  | [pre; suf] =>
      String.prefix pre name && ends_with suf name &&
      (String.length pre + String.length suf <=? String.length name)%nat
  | _ => false
  end.

(** A glob for patterns [dir/.../name] whose last component alone may
    hold a star. *)
Definition simple_glob (m : fs) (repo : path) (pat : string) : list path :=
  let comps := split_on "/" pat in
  let dir := repo ++ removelast comps in
  List.filter
    (fun p => bool_decide (removelast p = dir) &&
              star_match (List.last comps EmptyString) (path_name p))
    (map fst (map_to_list m)).

Definition dquote : string := String (ascii_of_nat 34) EmptyString.

Definition quote (s : string) : string := dquote +:+ s +:+ dquote.

(** A one-line JSON printer (no escapes). *)
Fixpoint render (j : json) : string :=
  match j with
  | JNull => "null"
  | JInt z => str_of_int z
  | JStr s => quote s
  | JArr items => "[" +:+ join ", " (map render items) +:+ "]"
  | JObj members =>
      "{" +:+
      join ", " (map (fun kv => let '(k, v) := kv in
                                quote k +:+ ": " +:+ render v) members)
      +:+ "}"
  end.

(** A stand-in for the digest. *)
Definition toy_digest (bytes : string) : string := "digest:" +:+ bytes.

(** Resolution on a platform without symbolic links: an absolute [s]
    replaces [base]; empty and ["."] components vanish and [".."]
    climbs. *)
Definition resolve_step (acc : path) (c : string) : path :=
  if String.eqb c EmptyString then acc
  else if String.eqb c "." then acc
  else if String.eqb c ".." then removelast acc
  else acc ++ [c].

Definition lexical_resolve (base : path) (s : string) : path :=
  fold_left resolve_step (split_on "/" s)
            (if String.prefix "/" s then [] else base).

Definition platform (help : string) : Platform :=
  {| ext := datetime;
     executable := "/usr/bin/python3";
     resolve := lexical_resolve;
     spawn := fake_tool help;
     glob := simple_glob;
     sha256_hexdigest := toy_digest;
     json_dumps := render;
     now_utc := fun x => x |}.

Definition noon : datetime := DateTime 2024 5 17 12 0 0 0.

Definition repo : path := ["work"].

(** A checkout with the tool and no fixture. *)
Definition bare_fs : fs :=
  <[["work"; "scripts"; "run_sost.py"] := File "print('sost')"]>
  (<[["work"; "scripts"] := Dir]>
  (<[["work"; "test_data"] := Dir]>
  (<[["work"] := Dir]> ∅))).

(** Two passing fixtures. *)
Definition good_fs : fs :=
  <[["work"; "test_data"; "band_low.csv"] := File "t,x"]>
  (<[["work"; "test_data"; "band_high.csv"] := File "t,y"]> bare_fs).

(** One failing fixture between two passing ones. *)
Definition mixed_fs : fs :=
  <[["work"; "test_data"; "band_mid.csv"] := File "bad"]> good_fs.

(** A checkout without the tool. *)
Definition toolless_fs : fs :=
  <[["work"; "test_data"; "band_low.csv"] := File "t,x"]>
  (<[["work"; "test_data"] := Dir]>
  (<[["work"] := Dir]> ∅)).

(** [good_fs] after an earlier, failed run. *)
Definition stale_fs : fs :=
  <[["work"; "_ci_out"; "band_suite_failures.txt"] :=
      File "band_low rc=1 csv=/work/test_data/band_low.csv"]>
  (<[["work"; "_ci_out"] := Dir]> good_fs).

Definition default_pattern : string := "test_data/band_*.csv".
Definition default_outdir : string := "_ci_out".

Definition demo_run (help : string) (m : fs) : @outcome (platform help) Z :=
  @run (platform help) default_pattern default_outdir repo ∅ noon m.

(** The output root of the runs, and [good_fs] once it is created. *)
Definition out : path := ["work"; "_ci_out"].

Definition ready_fs : fs := <[out := Dir]> good_fs.

(** One turn of the loop, on the fixture [c] in the file system [m0]. *)
Definition band_step (c : path) (m0 : fs)
    : @outcome (platform usage) (list BandResult * list string) :=
  @run_band (platform usage) repo out (tool_path repo) ∅
            (Some "--input-csv") (Some "--outdir") ([], []) c
            (@World (platform usage) noon m0 []).

(** The world the run leaves. *)
Definition demo_world (help : string) (m : fs) : @world (platform help) :=
  @final_world (platform help) Z (demo_run help m).

End Demo.

(* ================================================================== *)
(** * [test_import_sost.py] *)

Module Smoke.

(** The values an attribute of a module may hold. *)
#[warnings="-register-all"]
Inductive pyval :=
| PyNone
| PyBool (b : bool)
| PyInt (z : Z)
| PyStr (s : string)
| PyBytes (s : string)
| PyTuple (items : list pyval).

(** A module object: its attributes by name. *)
Abbreviation module := (gmap string pyval).

(** What [import sost] does. *)
Inductive import_result :=
| ImportRaises (error : string)
| Imported (sost : module).

Inductive test_outcome :=
| Passed
| AssertionFailed (message : string)
| Errored (error : string).

(** [hasattr(m, name)] *)
Definition hasattr (m : module) (name : string) : bool :=
  match m !! name with Some _ => true | None => false end.

(** [isinstance(v, str)] *)
Definition isinstance_str (v : pyval) : bool :=
  match v with PyStr _ => true | _ => false end.

(** The truth value of [v] in [assert v]. *)
Definition truthy (v : pyval) : bool :=
  match v with
  | PyNone => false
  | PyBool b => b
  | PyInt z => negb (z =? 0)%Z
  | PyStr s => str_truthy s
  | PyBytes s => str_truthy s
  | PyTuple items => match items with [] => false | _ => true end
  end.

(** [assert cond, message] followed by the rest of the test. *)
Definition assert_then (cond : bool) (message : string)
    (rest : test_outcome) : test_outcome :=
  if cond then rest else AssertionFailed message.

(** [test_import_sost_and_version] *)
Definition test_import_sost_and_version (imp : import_result)
    : test_outcome :=
  match imp with
  | ImportRaises error => Errored error
  | Imported sost =>
      assert_then (hasattr sost "__version__") EmptyString
        match sost !! "__version__" with
        | None => Errored "AttributeError"
        | Some version =>
            assert_then (isinstance_str version) EmptyString
              (assert_then (truthy version) "empty version string" Passed)
        end
  end.

(** The test fails when it does not pass. *)
Definition fails (imp : import_result) : Prop :=
  test_import_sost_and_version imp <> Passed.

End Smoke.

(* ================================================================== *)
(** * Facts about strings *)

Lemma append_cons (c : ascii) (s t : string) :
  String c s +:+ t = String c (s +:+ t).
Proof. reflexivity. Qed.

Lemma append_empty_l (t : string) : EmptyString +:+ t = t.
Proof. reflexivity. Qed.

Lemma append_nil_r (s : string) : s +:+ EmptyString = s.
Proof.
  induction s as [|c s IH]; [reflexivity |].
  rewrite append_cons. now rewrite IH.
Qed.

Lemma append_assoc (a b c : string) : (a +:+ b) +:+ c = a +:+ (b +:+ c).
Proof.
  induction a as [|x a IH]; [reflexivity |].
  rewrite !append_cons. now rewrite IH.
Qed.

Lemma prefix_spec (a s : string) :
  String.prefix a s = true <-> exists rest, s = a +:+ rest.
Proof.
  revert s. induction a as [|x a IH]; intros s.
  - split; [intros _; now exists s | intros _; now destruct s].
  - destruct s as [|y s].
    + split; [discriminate | intros [rest H]; discriminate].
    + simpl. destruct (Ascii.ascii_dec x y) as [->|Hxy].
      * rewrite IH. split; intros [rest H]; exists rest.
        -- rewrite append_cons. now rewrite H.
        -- rewrite append_cons in H. now injection H.
      * split; [discriminate |].
        intros [rest H]. rewrite append_cons in H. injection H. congruence.
Qed.

Lemma str_in_spec (needle hay : string) :
  str_in needle hay = true <-> occurs needle hay.
Proof.
  unfold occurs. induction hay as [|c hay IH]; cbn [str_in].
  - rewrite orb_false_r, prefix_spec. split.
    + intros [rest H]. exists EmptyString, rest. exact H.
    + intros [[|b before] [after H]]; [now exists after | discriminate].
  - rewrite orb_true_iff, IH, prefix_spec. split.
    + intros [[rest H] | (before & after & H)].
      * exists EmptyString, rest. exact H.
      * exists (String c before), after. rewrite append_cons. now rewrite H.
    + intros ([|b before] & after & H).
      * left. now exists after.
      * right. exists before, after. rewrite append_cons in H.
        now injection H.
Qed.

Lemma str_in_false (needle hay : string) :
  str_in needle hay = false <-> ~ occurs needle hay.
Proof.
  rewrite <- str_in_spec. destruct (str_in needle hay); split; intros H;
    try reflexivity; try discriminate; try (intros ?; discriminate).
  now contradiction H.
Qed.

(* ================================================================== *)
(** * Flag detection *)

Section Flags.
Context `{P : Platform}.

Lemma first_candidate_Some (cands : list string) (text c : string) :
  first_candidate cands text = Some c <-> first_occurring cands text c.
Proof.
  unfold first_occurring. induction cands as [|d cands IH]; simpl.
  - split; [discriminate | intros ([|? ?] & ? & H & _); discriminate].
  - destruct (str_in d text) eqn:Hd.
    + split.
      * intros [= <-]. exists [], cands. repeat split; auto.
        now apply str_in_spec.
      * intros (earlier & later & Heq & Hc & Hall).
        destruct earlier as [|e earlier]; simpl in Heq.
        -- now injection Heq as -> _.
        -- injection Heq as <- _. apply Forall_cons_1 in Hall as [Hno _].
           apply str_in_spec in Hd. contradiction.
    + rewrite IH. apply str_in_false in Hd. split.
      * intros (earlier & later & -> & Hc & Hall).
        exists (d :: earlier), later. repeat split; auto.
      * intros (earlier & later & Heq & Hc & Hall).
        destruct earlier as [|e earlier]; simpl in Heq.
        -- injection Heq as -> _. contradiction.
        -- injection Heq as <- ->. apply Forall_cons_1 in Hall as [_ Hall].
           now exists earlier, later.
Qed.

Lemma first_candidate_None (cands : list string) (text : string) :
  first_candidate cands text = None <->
  Forall (fun c => ~ occurs c text) cands.
Proof.
  induction cands as [|d cands IH]; simpl.
  - split; [constructor | reflexivity].
  - destruct (str_in d text) eqn:Hd.
    + split; [discriminate |].
      intros [Hno _]%Forall_cons_1. apply str_in_spec in Hd. contradiction.
    + rewrite IH. apply str_in_false in Hd. split.
      * now constructor.
      * now intros [_ H]%Forall_cons_1.
Qed.

Lemma build_cmd_no_flags (run_sost csv_path band_out : path) :
  build_cmd run_sost None None csv_path band_out =
  positional_cmd run_sost csv_path.
Proof. reflexivity. Qed.

End Flags.

(* ================================================================== *)
(** * Traces *)

Lemma spawns_app (a b : list event) : spawns (a ++ b) = spawns a ++ spawns b.
Proof. apply flat_map_app. Qed.

Lemma outputs_app (a b : list event) :
  outputs (a ++ b) = outputs a ++ outputs b.
Proof. apply flat_map_app. Qed.

Lemma writes_app (a b : list event) : writes (a ++ b) = writes a ++ writes b.
Proof. apply flat_map_app. Qed.

Lemma written_to_app (p : path) (a b : list event) :
  written_to p (a ++ b) = written_to p a ++ written_to p b.
Proof. apply flat_map_app. Qed.

Lemma globs_app (a b : list event) : globs (a ++ b) = globs a ++ globs b.
Proof. apply flat_map_app. Qed.

Lemma probes_app (a b : list event) : probes (a ++ b) = probes a ++ probes b.
Proof. apply flat_map_app. Qed.

(** A trace that writes to other files only writes nothing to [p]. *)
Lemma written_to_others (p : path) (tr : list event) :
  Forall (fun q => q <> p) (map fst (writes tr)) -> written_to p tr = [].
Proof.
  induction tr as [|e tr IH]; [reflexivity |].
  change (e :: tr) with ([e] ++ tr).
  rewrite writes_app, written_to_app, map_app.
  intros [He Htr]%Forall_app. rewrite (IH Htr), app_nil_r.
  destruct e; try reflexivity.
  cbn in He |- *. apply Forall_cons_1 in He as [He _].
  now destruct (decide (p0 = p)).
Qed.

(* ================================================================== *)
(** * The file system *)

Lemma snoc_not_nil {A} (l : list A) (x : A) : l ++ [x] <> [].
Proof. now destruct l. Qed.

Lemma fs_lookup_snoc (m : fs) (p : path) (c : string) :
  fs_lookup m (p ++ [c]) = m !! (p ++ [c]).
Proof. unfold fs_lookup. now destruct p. Qed.

Lemma fs_exists_snoc (m : fs) (p : path) (c : string) :
  fs_exists m (p ++ [c]) = true <-> is_Some (m !! (p ++ [c])).
Proof.
  unfold fs_exists. rewrite fs_lookup_snoc.
  destruct (m !! (p ++ [c])); split; intros H; auto.
  - discriminate.
  - now destruct H.
Qed.

(** The walk touches prefixes of its target only. *)
Lemma mkdir_walk_frame (todo : path) : forall (done : path) (m m' : fs),
  mkdir_walk done todo m = inr m' ->
  forall q, ~ q `prefix_of` (done ++ todo) -> m' !! q = m !! q.
Proof.
  induction todo as [|c todo IH]; intros done m m' H q Hq; simpl in H.
  - now injection H as <-.
  - assert (Hne : q <> done ++ [c]).
    { intros ->. apply Hq. exists todo. now rewrite <- app_assoc. }
    assert (Hq' : ~ q `prefix_of` ((done ++ [c]) ++ todo)).
    { now rewrite <- app_assoc. }
    destruct (m !! (done ++ [c])) as [[content|]|] eqn:E.
    + discriminate.
    + now apply (IH _ _ _ H).
    + rewrite (IH _ _ _ H q Hq'). now apply lookup_insert_ne.
Qed.

(** The walk keeps what is there. *)
Lemma mkdir_walk_keeps (todo : path) : forall (done : path) (m m' : fs),
  mkdir_walk done todo m = inr m' ->
  forall q n, m !! q = Some n -> m' !! q = Some n.
Proof.
  induction todo as [|c todo IH]; intros done m m' H q n Hq; simpl in H.
  - now injection H as <-.
  - destruct (m !! (done ++ [c])) as [[content|]|] eqn:E.
    + discriminate.
    + now apply (IH _ _ _ H).
    + apply (IH _ _ _ H). rewrite lookup_insert_ne; [exact Hq |].
      intros <-. congruence.
Qed.

(** The walk ends on a directory. *)
Lemma mkdir_walk_dir (todo : path) : forall (done : path) (m m' : fs),
  fs_lookup m done = Some Dir ->
  mkdir_walk done todo m = inr m' ->
  fs_lookup m' (done ++ todo) = Some Dir.
Proof.
  induction todo as [|c todo IH]; intros done m m' Hdone H; simpl in H.
  - injection H as <-. now rewrite app_nil_r.
  - replace (done ++ c :: todo) with ((done ++ [c]) ++ todo)
      by now rewrite <- app_assoc.
    destruct (m !! (done ++ [c])) as [[content|]|] eqn:E.
    + discriminate.
    + apply (IH _ _ _ (eq_trans (fs_lookup_snoc _ _ _) E) H).
    + apply (fun Hd => IH _ _ _ Hd H).
      rewrite fs_lookup_snoc. apply lookup_insert_eq.
Qed.

Lemma fs_mkdir_parents_frame (m m' : fs) (p q : path) :
  fs_mkdir_parents m p = inr m' -> ~ q `prefix_of` p -> m' !! q = m !! q.
Proof. intros H Hq. now apply (mkdir_walk_frame _ _ _ _ H). Qed.

Lemma fs_mkdir_parents_keeps (m m' : fs) (p q : path) (n : node) :
  fs_mkdir_parents m p = inr m' -> m !! q = Some n -> m' !! q = Some n.
Proof. intros H. now apply (mkdir_walk_keeps _ _ _ _ H). Qed.

Lemma fs_mkdir_parents_dir (m m' : fs) (p : path) :
  fs_mkdir_parents m p = inr m' -> fs_lookup m' p = Some Dir.
Proof. intros H. now apply (mkdir_walk_dir p [] m m'). Qed.

Lemma removelast_snoc {A} (l : list A) (x : A) : removelast (l ++ [x]) = l.
Proof. apply removelast_last. Qed.

Lemma fs_write_text_inv (m m' : fs) (p : path) (s : string) :
  fs_write_text m p s = inr m' ->
  m' = <[p := File s]> m /\ p <> [] /\
  fs_lookup m (removelast p) = Some Dir /\ m !! p <> Some Dir.
Proof.
  unfold fs_write_text. destruct p as [|c p]; [discriminate |].
  destruct (fs_lookup m (removelast (c :: p))) as [[?|]|]; try discriminate.
  destruct (m !! (c :: p)) as [[?|]|] eqn:E; try discriminate;
    intros [= <-]; repeat split; congruence.
Qed.

Lemma fs_write_text_ok (m : fs) (p : path) (c s : string) :
  fs_lookup m p = Some Dir -> m !! (p ++ [c]) <> Some Dir ->
  fs_write_text m (p ++ [c]) s = inr (<[p ++ [c] := File s]> m).
Proof.
  intros Hp Hc. unfold fs_write_text.
  destruct (p ++ [c]) as [|a l] eqn:E; [now destruct p |].
  rewrite <- E in Hc |- *. rewrite removelast_snoc, Hp.
  destruct (m !! (p ++ [c])) as [[?|]|]; congruence.
Qed.

(** A written file holds what was written. *)
Lemma fs_write_text_lookup (m m' : fs) (p : path) (s : string) :
  fs_write_text m p s = inr m' -> m' !! p = Some (File s).
Proof. intros (-> & _)%fs_write_text_inv. apply lookup_insert_eq. Qed.

Lemma fs_write_text_frame (m m' : fs) (p q : path) (s : string) :
  fs_write_text m p s = inr m' -> q <> p -> m' !! q = m !! q.
Proof.
  intros (-> & _)%fs_write_text_inv Hq. now apply lookup_insert_ne.
Qed.

(* ================================================================== *)
(** * The steps of the driver *)

Section DriverFacts.
Context `{P : Platform}.

Lemma bind_Done {A B} (c : M A) (k : A -> M B) (w w' : world) (b : B) :
  bind c k w = Done b w' ->
  exists a w1, c w = Done a w1 /\ k a w1 = Done b w'.
Proof.
  unfold bind. destruct (c w) as [a w1|e w1]; [| discriminate].
  intros H. now exists a, w1.
Qed.

Lemma mkdir_parents_Done (p : path) (w w' : world) (u : unit) :
  mkdir_parents p w = Done u w' ->
  fs_mkdir_parents (w_fs w) p = inr (w_fs w') /\
  w_ext w' = w_ext w /\ w_trace w' = w_trace w ++ [EvMkdir p].
Proof.
  unfold mkdir_parents.
  destruct (fs_mkdir_parents (w_fs w) p) as [e|m]; [discriminate |].
  now intros [= _ <-].
Qed.

Lemma write_text_Done (p : path) (s : string) (w w' : world) (u : unit) :
  write_text p s w = Done u w' ->
  fs_write_text (w_fs w) p s = inr (w_fs w') /\
  w_ext w' = w_ext w /\ w_trace w' = w_trace w ++ [EvWrite p s].
Proof.
  unfold write_text.
  destruct (fs_write_text (w_fs w) p s) as [e|m]; [discriminate |].
  now intros [= _ <-].
Qed.

Lemma run_capture_Done (cmd : list string) (cwd : path)
    (env : gmap string string) (w w' : world) (code : Z) (out : string) :
  run_capture cmd cwd env w = Done (code, out) w' ->
  spawn cmd cwd env (w_ext w) (w_fs w) = (code, out, w_ext w', w_fs w') /\
  w_trace w' = w_trace w ++ [EvSpawn cmd cwd env code out].
Proof.
  unfold run_capture.
  destruct (spawn cmd cwd env (w_ext w) (w_fs w)) as [[[c o] x] m].
  now intros [= <- <- <-].
Qed.

(** [read_help] hands back the captured output whatever the return code. *)
Lemma read_help_spec (script repo : path) (env : gmap string string)
    (w : world) (code : Z) (out : string) (x : ext) (m : fs) :
  spawn (help_cmd script) repo env (w_ext w) (w_fs w) = (code, out, x, m) ->
  read_help script repo env w =
  Done out (World x m (w_trace w ++
                       [EvSpawn (help_cmd script) repo env code out])).
Proof.
  intros H. unfold read_help, bind, run_capture. rewrite H.
  now destruct out.
Qed.

(** ** Insertion-ordered dictionaries *)

Lemma dict_get_set_eq {V} (k : string) (v : V) (d : list (string * V)) :
  dict_get k (dict_set k v d) = Some v.
Proof.
  induction d as [|[k' v'] d IH]; simpl.
  - now rewrite String.eqb_refl.
  - destruct (String.eqb k' k) eqn:E; simpl; now rewrite E.
Qed.

Lemma dict_get_set_ne {V} (k k' : string) (v : V) (d : list (string * V)) :
  k <> k' -> dict_get k (dict_set k' v d) = dict_get k d.
Proof.
  intros Hne. induction d as [|[k0 v0] d IH]; simpl.
  - destruct (String.eqb k' k) eqn:E; [| reflexivity].
    apply String.eqb_eq in E. congruence.
  - destruct (String.eqb k0 k') eqn:E; simpl.
    + apply String.eqb_eq in E as ->.
      destruct (String.eqb k' k) eqn:E'; [| reflexivity].
      apply String.eqb_eq in E'. congruence.
    + now rewrite IH.
Qed.

(** ** The report loop *)

(** The report loop reads, never writes: it leaves the file system as it
    is, probes each name once and in order, and keeps an entry for the
    names that are regular files. *)
Lemma collect_reports_Done (band_out : path) (names : list string) :
  forall (acc : list (string * ReportEntry)) (w w' : world)
         (reps : list (string * ReportEntry)),
  collect_reports band_out names acc w = Done reps w' ->
  w_ext w' = w_ext w /\ w_fs w' = w_fs w /\
  (exists evs,
     w_trace w' = w_trace w ++ evs /\
     probes evs =
       map (fun n => (band_out ++ [n], fs_exists (w_fs w) (band_out ++ [n])))
           names /\
     spawns evs = [] /\ writes evs = [] /\ globs evs = []) /\
  (forall n, In n names -> w_fs w !! (band_out ++ [n]) <> Some Dir) /\
  (forall n, In n names ->
     dict_get n reps =
     match report_entry (w_fs w) band_out n with
     | Some e => Some e
     | None => dict_get n acc
     end) /\
  (forall n, ~ In n names -> dict_get n reps = dict_get n acc).
Proof.
  induction names as [|name names IH]; intros acc w w' reps H.
  - injection H as <- <-. repeat split; try tauto.
    + exists []. now rewrite app_nil_r.
    + intros n [].
  - cbn [collect_reports] in H. unfold bind at 1, path_exists in H.
    set (p := band_out ++ [name]) in *.
    set (w1 := log_event (EvExists p (fs_exists (w_fs w) p)) w) in *.
    assert (Hfs1 : w_fs w1 = w_fs w) by reflexivity.
    assert (Hx1 : w_ext w1 = w_ext w) by reflexivity.
    assert (Hlk : fs_lookup (w_fs w) p = w_fs w !! p)
      by apply fs_lookup_snoc.
    destruct (fs_exists (w_fs w) p) eqn:Hex.
    + (* the file is there: it is read and hashed *)
      unfold bind at 1, sha256_file, bind at 1, read_bytes in H.
      unfold fs_read_bytes in H. rewrite Hfs1, Hlk in H.
      destruct (w_fs w !! p) as [[bytes|]|] eqn:Hp; try discriminate.
      unfold ret in H.
      apply IH in H as (Hx & Hfs & (evs & Htr & Hpr & Hsp & Hwr & Hgl) &
                        Hnd & Hin & Hout).
      cbn in Hx, Hfs, Htr, Hpr, Hnd, Hin.
      assert (Hre : report_entry (w_fs w) band_out name =
                    Some (mkReportEntry (path_str p)
                                        (sha256_hexdigest bytes))).
      { unfold report_entry. fold p. now rewrite Hp. }
      split; [exact Hx |]. split; [exact Hfs |]. split; [| split; [| split]].
      * exists ([EvExists p true; EvRead p bytes] ++ evs).
        rewrite Htr, <- !app_assoc. split; [reflexivity |].
        rewrite probes_app, spawns_app, writes_app, globs_app, Hpr, Hsp,
          Hwr, Hgl. cbn. fold p. now rewrite Hex.
      * intros n [<- | Hn]; [fold p; congruence | now apply Hnd].
      * intros n [<- | Hn].
        -- rewrite Hre. destruct (in_dec string_dec name names) as [Hi|Hi].
           ++ rewrite (Hin _ Hi), Hre. reflexivity.
           ++ rewrite (Hout _ Hi). apply dict_get_set_eq.
        -- rewrite (Hin _ Hn).
           destruct (report_entry (w_fs w) band_out n) eqn:En;
             [reflexivity |].
           destruct (string_dec n name) as [->|Hne];
             [congruence | now apply dict_get_set_ne].
      * intros n Hn. rewrite Hout by (intros Hi; apply Hn; now right).
        apply dict_get_set_ne. intros ->. apply Hn. now left.
    + (* the file is missing: the name is skipped *)
      assert (Hp : w_fs w !! p = None).
      { unfold fs_exists in Hex. rewrite Hlk in Hex.
        now destruct (w_fs w !! p). }
      apply IH in H as (Hx & Hfs & (evs & Htr & Hpr & Hsp & Hwr & Hgl) &
                        Hnd & Hin & Hout).
      cbn in Hx, Hfs, Htr, Hpr, Hnd, Hin.
      assert (Hre : report_entry (w_fs w) band_out name = None).
      { unfold report_entry. fold p. now rewrite Hp. }
      split; [exact Hx |]. split; [exact Hfs |]. split; [| split; [| split]].
      * exists ([EvExists p false] ++ evs).
        rewrite Htr, <- !app_assoc. split; [reflexivity |].
        rewrite probes_app, spawns_app, writes_app, globs_app, Hpr, Hsp,
          Hwr, Hgl. cbn. fold p. now rewrite Hex.
      * intros n [<- | Hn]; [fold p; congruence | now apply Hnd].
      * intros n [<- | Hn].
        -- rewrite Hre. destruct (in_dec string_dec name names) as [Hi|Hi].
           ++ rewrite (Hin _ Hi), Hre. reflexivity.
           ++ now apply Hout.
        -- now apply Hin.
      * intros n Hn. apply Hout. intros Hi; apply Hn; now right.
Qed.

(** The report loop raises only on a directory that has the name of a
    report. *)
Lemma collect_reports_total (band_out : path) (names : list string) :
  forall (acc : list (string * ReportEntry)) (w : world),
  (forall n, In n names -> w_fs w !! (band_out ++ [n]) <> Some Dir) ->
  exists reps w', collect_reports band_out names acc w = Done reps w'.
Proof.
  induction names as [|name names IH]; intros acc w Hnd.
  - now exists acc, w.
  - cbn [collect_reports]. unfold bind at 1, path_exists.
    set (p := band_out ++ [name]) in *.
    set (w1 := log_event (EvExists p (fs_exists (w_fs w) p)) w) in *.
    assert (Hnd' : forall n, In n names ->
                     w_fs w1 !! (band_out ++ [n]) <> Some Dir)
      by (intros n Hn; apply Hnd; now right).
    destruct (fs_exists (w_fs w) p) eqn:Hex; [| now apply IH].
    unfold bind at 1, sha256_file, bind at 1, read_bytes, fs_read_bytes.
    change (w_fs w1) with (w_fs w).
    replace (fs_lookup (w_fs w) p) with (w_fs w !! p)
      by (symmetry; apply fs_lookup_snoc).
    destruct (w_fs w !! p) as [[bytes|]|] eqn:Hp.
    + unfold ret. now apply IH.
    + exfalso. apply (Hnd name); [now left | exact Hp].
    + exfalso. unfold fs_exists in Hex.
      replace (fs_lookup (w_fs w) p) with (w_fs w !! p) in Hex
        by (symmetry; apply fs_lookup_snoc).
      rewrite Hp in Hex. discriminate.
Qed.

End DriverFacts.

(* ================================================================== *)
(** * One fixture, then all of them *)

Section BandLoop.
Context `{P : Platform}.
Variables (repo out run_sost : path) (env : gmap string string).
Variable flags : option string * option string.

(** The line appended to [failures] is the line of the band's record. *)
Lemma failure_line_of_record (c : path) (code : Z) (bo lp : string)
    (reps : list (string * ReportEntry)) :
  failure_line (path_stem c) code c =
  band_failure_line (mkBandResult (path_stem c) (path_str c) code bo reps lp).
Proof. reflexivity. Qed.

(** What one turn of the loop does when it completes. *)
Lemma run_band_Done (results : list BandResult) (failures : list string)
    (c : path) (w w' : world) (st' : list BandResult * list string) :
  run_band repo out run_sost env (fst flags) (snd flags)
           (results, failures) c w = Done st' w' ->
  exists code log reps m1 m2 evs,
    fs_mkdir_parents (w_fs w) (band_dir out c) = inr m1 /\
    spawn (fixture_cmd run_sost flags out c) repo env (w_ext w) m1 =
      (code, log, w_ext w', m2) /\
    fs_write_text m2 (band_log out c) log = inr (w_fs w') /\
    w_trace w' =
      w_trace w ++
      [EvMkdir (band_dir out c);
       EvSpawn (fixture_cmd run_sost flags out c) repo env code log;
       EvWrite (band_log out c) log] ++ evs /\
    probes evs = report_probes (w_fs w') (band_dir out c) /\
    spawns evs = [] /\ writes evs = [] /\ globs evs = [] /\
    (forall n, In n report_names ->
       w_fs w' !! (band_dir out c ++ [n]) <> Some Dir /\
       dict_get n reps = report_entry (w_fs w') (band_dir out c) n) /\
    (forall n, ~ In n report_names -> dict_get n reps = None) /\
    st' =
      (results ++
       [mkBandResult (path_stem c) (path_str c) code
                     (path_str (band_dir out c)) reps
                     (path_str (band_log out c))],
       if (code =? 0)%Z then failures
       else failures ++ [failure_line (path_stem c) code c]).
Proof.
  unfold run_band. intros H.
  apply bind_Done in H as (u1 & w1 & H1 & H).
  apply mkdir_parents_Done in H1 as (Hm1 & Hx1 & Ht1).
  apply bind_Done in H as ([code log] & w2 & H2 & H).
  apply run_capture_Done in H2 as (Hsp2 & Ht2).
  apply bind_Done in H as (u3 & w3 & H3 & H).
  apply write_text_Done in H3 as (Hm3 & Hx3 & Ht3).
  apply bind_Done in H as (reps & w4 & H4 & H).
  apply collect_reports_Done in H4
    as (Hx4 & Hfs4 & (evs & Ht4 & Hpr & Hsp & Hwr & Hgl) & Hnd & Hin & Hout).
  injection H as <- <-.
  exists code, log, reps, (w_fs w1), (w_fs w2), evs.
  rewrite Hx1 in Hsp2. rewrite Hx4, Hx3, Hfs4.
  split; [exact Hm1 |]. split; [exact Hsp2 |]. split; [exact Hm3 |].
  split.
  { rewrite Ht4, Ht3, Ht2, Ht1, <- !app_assoc. reflexivity. }
  split; [exact Hpr |]. split; [exact Hsp |]. split; [exact Hwr |].
  split; [exact Hgl |]. split; [| split; [| reflexivity]].
  - intros n Hn. split; [now apply Hnd |].
    rewrite (Hin n Hn).
    fold (band_dir out c).
    now destruct (report_entry (w_fs w3) (band_dir out c) n).
  - intros n Hn. now rewrite (Hout n Hn).
Qed.

(** What the whole loop does when it completes: one record per fixture,
    in the order of the fixtures, and one failure line per failing
    record. *)
Lemma for_each_Done (csvs : list path) :
  forall (results : list BandResult) (failures : list string)
         (w w' : world) (st' : list BandResult * list string),
  for_each (run_band repo out run_sost env (fst flags) (snd flags))
           csvs (results, failures) w = Done st' w' ->
  exists rs evs,
    st' = (results ++ rs,
           failures ++ map band_failure_line (List.filter failing rs)) /\
    w_trace w' = w_trace w ++ evs /\
    loop_result run_sost flags out csvs rs evs.
Proof.
  induction csvs as [|c csvs IH]; intros results failures w w' st' H.
  - injection H as <- <-. exists [], [].
    rewrite !app_nil_r. repeat split.
  - cbn [for_each] in H.
    apply bind_Done in H as (st1 & w1 & H1 & H).
    apply run_band_Done in H1
      as (code & log & reps & m1 & m2 & evs1 & _ & _ & _ & Ht1 & _ &
          Hsp1 & Hwr1 & Hgl1 & _ & _ & ->).
    apply IH in H as (rs & evs & -> & Ht & Hb & Hc & Hsp & Hwr & Hgl).
    set (r := mkBandResult (path_stem c) (path_str c) code
                (path_str (band_dir out c)) reps
                (path_str (band_log out c))) in *.
    exists (r :: rs),
      ([EvMkdir (band_dir out c);
        EvSpawn (fixture_cmd run_sost flags out c) repo env code log;
        EvWrite (band_log out c) log] ++ evs1 ++ evs).
    split; [| split; [| repeat split]].
    + rewrite <- !app_assoc. cbn [app List.filter]. unfold failing at 2.
      cbn [rc r]. destruct (code =? 0)%Z; cbn [negb map]; [reflexivity |].
      now rewrite <- app_assoc.
    + rewrite Ht, Ht1, <- !app_assoc. reflexivity.
    + cbn [map]. now rewrite Hb.
    + cbn [map]. now rewrite Hc.
    + rewrite !spawns_app, Hsp1, Hsp. reflexivity.
    + rewrite !writes_app, Hwr1, !map_app, Hwr. reflexivity.
    + rewrite !globs_app, Hgl1, Hgl. reflexivity.
Qed.

End BandLoop.

(* ================================================================== *)
(** * [sorted] *)

Lemma ascii_compare_lt_trans (a b c : ascii) :
  Ascii.compare a b = Lt -> Ascii.compare b c = Lt -> Ascii.compare a c = Lt.
Proof.
  unfold Ascii.compare. rewrite !N.compare_lt_iff. apply N.lt_trans.
Qed.

Lemma string_compare_lt_trans (a : string) : forall b c : string,
  String.compare a b = Lt -> String.compare b c = Lt ->
  String.compare a c = Lt.
Proof.
  induction a as [|x a IH]; intros [|y b] [|z c]; simpl; try congruence.
  destruct (Ascii.compare x y) eqn:Exy; try discriminate;
    destruct (Ascii.compare y z) eqn:Eyz; try discriminate; intros Hab Hbc.
  - apply Ascii.compare_eq_iff in Exy as ->. rewrite Eyz. now apply (IH b).
  - apply Ascii.compare_eq_iff in Exy as ->. now rewrite Eyz.
  - apply Ascii.compare_eq_iff in Eyz as <-. now rewrite Exy.
  - now rewrite (ascii_compare_lt_trans _ _ _ Exy Eyz).
Qed.

Lemma path_le_total (p : path) : forall q, path_le p q \/ path_le q p.
Proof.
  unfold path_le. induction p as [|a p IH]; intros [|b q]; simpl; auto.
  rewrite (String.compare_antisym b a).
  destruct (String.compare a b); simpl; auto.
Qed.

Lemma path_le_trans (p : path) : forall q r,
  path_le p q -> path_le q r -> path_le p r.
Proof.
  unfold path_le.
  induction p as [|a p IH]; intros [|b q] [|c r]; simpl; try congruence.
  destruct (String.compare a b) eqn:Eab; try discriminate;
    destruct (String.compare b c) eqn:Ebc; try discriminate; intros Hpq Hqr.
  - apply String.compare_eq_iff in Eab as ->. rewrite Ebc. now apply (IH q).
  - apply String.compare_eq_iff in Eab as ->. now rewrite Ebc.
  - apply String.compare_eq_iff in Ebc as <-. now rewrite Eab.
  - now rewrite (string_compare_lt_trans _ _ _ Eab Ebc).
Qed.

Lemma insert_sorted_perm (x : path) (l : list path) :
  Permutation (x :: l) (insert_sorted x l).
Proof.
  induction l as [|y l IH]; simpl; [reflexivity |].
  destruct (path_leb y x); [| reflexivity].
  rewrite perm_swap. now constructor.
Qed.

Lemma insert_sorted_StronglySorted (x : path) (l : list path) :
  StronglySorted path_le l -> StronglySorted path_le (insert_sorted x l).
Proof.
  induction 1 as [|y l Hl IH Hy]; simpl.
  - repeat constructor.
  - destruct (path_leb y x) eqn:E.
    + constructor; [exact IH |].
      rewrite <- (insert_sorted_perm x l). now constructor.
    + assert (Hxy : path_le x y).
      { destruct (path_le_total x y) as [H|H]; [exact H |].
        unfold path_le in H. congruence. }
      constructor; [now constructor |]. constructor; [exact Hxy |].
      eapply Forall_impl; [exact Hy |].
      intros z Hz. now apply (path_le_trans x y z).
Qed.

Lemma fold_insert_sorted (l : list path) : forall acc : list path,
  StronglySorted path_le acc ->
  Permutation (l ++ acc) (fold_left (fun a x => insert_sorted x a) l acc) /\
  StronglySorted path_le (fold_left (fun a x => insert_sorted x a) l acc).
Proof.
  induction l as [|x l IH]; intros acc Hacc; simpl; [now split |].
  destruct (IH (insert_sorted x acc)) as [Hp Hs];
    [now apply insert_sorted_StronglySorted |].
  split; [| exact Hs].
  rewrite <- Hp, <- insert_sorted_perm. apply Permutation_middle.
Qed.

(** [sorted] rearranges its argument into ascending order. *)
Lemma sorted_perm (l : list path) : Permutation l (sorted l).
Proof.
  destruct (fold_insert_sorted l []) as [Hp _]; [constructor |].
  now rewrite app_nil_r in Hp.
Qed.

Lemma sorted_StronglySorted (l : list path) :
  StronglySorted path_le (sorted l).
Proof. apply (fold_insert_sorted l []). constructor. Qed.

Lemma sorted_length (l : list path) : length (sorted l) = length l.
Proof. symmetry. apply Permutation_length, sorted_perm. Qed.

Lemma sorted_nil (l : list path) : sorted l = [] <-> l = [].
Proof.
  split; [| now intros ->].
  intros H. apply Permutation_nil. rewrite <- H. symmetry. apply sorted_perm.
Qed.

(* ================================================================== *)
(** * Counting *)

Lemma fold_add_ones (n : nat) : forall z : Z,
  fold_left Z.add (repeat 1%Z n) z = (z + Z.of_nat n)%Z.
Proof.
  induction n as [|n IH]; intros z; cbn [repeat fold_left]; [lia |].
  rewrite IH. lia.
Qed.

(** [sum(1 for r in results if keep(r))] counts the records kept. *)
Lemma count_if_length (keep : BandResult -> bool) (rs : list BandResult) :
  count_if keep rs = Z.of_nat (length (List.filter keep rs)).
Proof.
  unfold count_if.
  replace (map (fun _ => 1%Z) (List.filter keep rs))
    with (repeat 1%Z (length (List.filter keep rs))).
  - apply fold_add_ones.
  - induction (List.filter keep rs) as [|r l IH]; simpl; congruence.
Qed.

Lemma filter_split_length {A} (keep : A -> bool) (l : list A) :
  (length (List.filter keep l) +
   length (List.filter (fun x => negb (keep x)) l) = length l)%nat.
Proof.
  induction l as [|x l IH]; simpl; [reflexivity |].
  destruct (keep x); simpl; lia.
Qed.

(* ================================================================== *)
(** * The whole run *)

Section Run.
Context `{P : Platform}.

Lemma print_Done (s : string) (w w' : world) (u : unit) :
  print s w = Done u w' ->
  w_ext w' = w_ext w /\ w_fs w' = w_fs w /\
  w_trace w' = w_trace w ++ [EvPrint s].
Proof. unfold print. now intros [= _ <-]. Qed.

(** What the aggregation does when it completes: the loop, then the
    clock, then the summary, then the failure list if a band failed. *)
Lemma run_suite_Done (repo out run_sost : path) (env : gmap string string)
    (pat : string) (flags : option string * option string)
    (csvs : list path) (w w' : world) (code : Z) :
  run_suite repo out run_sost env pat flags csvs w = Done code w' ->
  exists rs evs w3 m4,
    for_each (run_band repo out run_sost env (fst flags) (snd flags))
             csvs ([], []) w = Done (rs, failure_lines rs) w3 /\
    w_trace w3 = w_trace w ++ evs /\
    loop_result run_sost flags out csvs rs evs /\
    w_ext w' = w_ext w3 /\
    fs_write_text (w_fs w3) (summary_path out)
      (summary_text pat flags (now_utc (w_ext w3)) rs) = inr m4 /\
    ((failure_lines rs = [] /\ code = 0%Z /\ w_fs w' = m4 /\
      w_trace w' =
        w_trace w ++ evs ++
        passed_events out pat flags (now_utc (w_ext w3)) rs)
     \/
     (failure_lines rs <> [] /\ code = 1%Z /\
      fs_write_text m4 (failures_path out) (failures_text rs) =
        inr (w_fs w') /\
      w_trace w' =
        w_trace w ++ evs ++
        failed_events out pat flags (now_utc (w_ext w3)) rs)).
Proof.
  unfold run_suite. intros H.
  apply bind_Done in H as ([results failures] & w3 & Hloop & H).
  destruct (for_each_Done _ _ _ _ _ _ _ _ _ _ _ Hloop)
    as (rs & evs & [= -> ->] & Ht3 & Hres).
  cbn [app] in Hloop, H. fold (failure_lines rs) in Hloop, H.
  apply bind_Done in H as (now & w4 & Hnow & H).
  injection Hnow as <- <-.
  apply bind_Done in H as (u5 & w5 & H5 & H).
  apply write_text_Done in H5 as (Hm5 & Hx5 & Ht5).
  cbn in Hm5, Hx5, Ht5.
  exists rs, evs, w3, (w_fs w5).
  split; [exact Hloop |]. split; [exact Ht3 |]. split; [exact Hres |].
  destruct (failure_lines rs) as [|line lines] eqn:Hlines.
  - apply bind_Done in H as (u6 & w6 & H6 & H).
    apply print_Done in H6 as (Hx6 & Hm6 & Ht6).
    injection H as <- <-.
    split; [congruence |]. split; [exact Hm5 |]. left.
    split; [reflexivity |]. split; [reflexivity |]. split; [exact Hm6 |].
    rewrite Ht6, Ht5, Ht3, <- !app_assoc. reflexivity.
  - apply bind_Done in H as (u6 & w6 & H6 & H).
    apply write_text_Done in H6 as (Hm6 & Hx6 & Ht6).
    apply bind_Done in H as (u7 & w7 & H7 & H).
    apply print_Done in H7 as (Hx7 & Hm7 & Ht7).
    apply bind_Done in H as (u8 & w8 & H8 & H).
    apply print_Done in H8 as (Hx8 & Hm8 & Ht8).
    injection H as <- <-.
    split; [congruence |]. split; [exact Hm5 |]. right.
    split; [discriminate |]. split; [reflexivity |].
    unfold failed_events, failures_text. rewrite Hlines.
    split; [now rewrite Hm8, Hm7 |].
    rewrite Ht8, Ht7, Ht6, Ht5, Ht3, <- !app_assoc. reflexivity.
Qed.

(** The three ways a run completes: the tool is missing; the tool is
    there and no fixture matched; the suite ran. *)
Lemma run_Done (args_pattern args_outdir : string) (cwd : path)
    (environ : gmap string string) (x : ext) (m : fs)
    (code : Z) (w' : world) :
  run args_pattern args_outdir cwd environ x m = Done code w' ->
  exists m1,
    fs_mkdir_parents m (out_root cwd args_outdir) = inr m1 /\
    ((fs_exists m1 (tool_path cwd) = false /\ code = 2%Z /\
      w_ext w' = x /\
      fs_write_text m1 (failures_path (out_root cwd args_outdir))
                    missing_note = inr (w_fs w') /\
      w_trace w' =
        [EvMkdir (out_root cwd args_outdir);
         EvExists (tool_path cwd) false;
         EvWrite (failures_path (out_root cwd args_outdir)) missing_note;
         EvPrint "Missing scripts/run_sost.py"])
     \/
     (fs_exists m1 (tool_path cwd) = true /\
      exists hrc hout x2 m2,
        spawn (help_cmd (tool_path cwd)) cwd (child_env cwd environ) x m1 =
          (hrc, hout, x2, m2) /\
        ((glob m2 cwd args_pattern = [] /\ code = 2%Z /\ w_ext w' = x2 /\
          fs_write_text m2 (failures_path (out_root cwd args_outdir))
                        (no_match_note args_pattern) = inr (w_fs w') /\
          w_trace w' =
            head_events args_pattern args_outdir cwd environ hrc hout [] ++
            [EvWrite (failures_path (out_root cwd args_outdir))
                     (no_match_note args_pattern);
             EvPrint ("No CSV matched pattern: " +:+ args_pattern)])
         \/
         (glob m2 cwd args_pattern <> [] /\
          run_suite cwd (out_root cwd args_outdir) (tool_path cwd)
            (child_env cwd environ) args_pattern (pick_flags hout)
            (sorted (glob m2 cwd args_pattern))
            (World x2 m2
               (head_events args_pattern args_outdir cwd environ hrc hout
                            (glob m2 cwd args_pattern))) = Done code w')))).
Proof.
  unfold run, main. fold (out_root cwd args_outdir). fold (tool_path cwd).
  intros H.
  apply bind_Done in H as (u1 & w1 & H1 & H).
  apply mkdir_parents_Done in H1 as (Hm1 & Hx1 & Ht1).
  cbn in Hm1, Hx1, Ht1.
  exists (w_fs w1). split; [exact Hm1 |].
  apply bind_Done in H as (there & w2 & H2 & H).
  injection H2 as <- <-.
  destruct (fs_exists (w_fs w1) (tool_path cwd)) eqn:Hthere; cbn [negb] in H.
  - right. split; [reflexivity |].
    apply bind_Done in H as (help_text & w3 & H3 & H).
    destruct (spawn (help_cmd (tool_path cwd)) cwd (child_env cwd environ)
                    x (w_fs w1)) as [[[hrc hout] x2] m2] eqn:Hspawn.
    rewrite (read_help_spec _ _ _ _ hrc hout x2 m2) in H3
      by (cbn; now rewrite Hx1).
    injection H3 as <- <-.
    exists hrc, hout, x2, m2. split; [reflexivity |].
    apply bind_Done in H as (csv_files & w4 & H4 & H).
    injection H4 as <- <-. cbn [w_fs] in H.
    destruct (sorted (glob m2 cwd args_pattern)) as [|c cs] eqn:Hsorted.
    + left. apply (proj1 (sorted_nil _)) in Hsorted. rewrite Hsorted in *.
      apply bind_Done in H as (u5 & w5 & H5 & H).
      apply write_text_Done in H5 as (Hm5 & Hx5 & Ht5).
      apply bind_Done in H as (u6 & w6 & H6 & H).
      apply print_Done in H6 as (Hx6 & Hm6 & Ht6).
      injection H as <- <-.
      split; [reflexivity |]. split; [reflexivity |].
      split; [now rewrite Hx6, Hx5 |].
      split; [now rewrite Hm6 |].
      rewrite Ht6, Ht5. cbn. rewrite Ht1, <- !app_assoc. reflexivity.
    + right. split.
      * intros Hnil. rewrite Hnil in Hsorted. discriminate.
      * rewrite <- H. unfold head_events, log_event. cbn.
        rewrite Ht1. reflexivity.
  - left. split; [reflexivity |].
    apply bind_Done in H as (u5 & w5 & H5 & H).
    apply write_text_Done in H5 as (Hm5 & Hx5 & Ht5).
    apply bind_Done in H as (u6 & w6 & H6 & H).
    apply print_Done in H6 as (Hx6 & Hm6 & Ht6).
    injection H as <- <-.
    split; [reflexivity |].
    split; [now rewrite Hx6, Hx5 |].
    split; [now rewrite Hm6 |].
    rewrite Ht6, Ht5. cbn. rewrite Ht1. reflexivity.
Qed.

End Run.

(* ================================================================== *)
(** * The files of a run are distinct *)

Lemma length_append (a b : string) :
  String.length (a +:+ b) = (String.length a + String.length b)%nat.
Proof.
  induction a as [|x a IH]; [reflexivity |].
  rewrite append_cons. simpl. now rewrite IH.
Qed.

(** Two strings with endings of one length agree on the endings. *)
Lemma append_same_length_inj (a : string) : forall b s t : string,
  String.length s = String.length t -> a +:+ s = b +:+ t -> s = t.
Proof.
  induction a as [|x a IH]; intros [|y b] s t Hlen H.
  - exact H.
  - rewrite append_empty_l in H. subst s.
    rewrite append_cons in Hlen. simpl in Hlen.
    rewrite length_append in Hlen. lia.
  - rewrite append_empty_l in H. subst t.
    rewrite append_cons in Hlen. simpl in Hlen.
    rewrite length_append in Hlen. lia.
  - rewrite !append_cons in H. injection H as _ H. now apply (IH b).
Qed.

Lemma band_log_not_summary (out c : path) : band_log out c <> summary_path out.
Proof.
  unfold band_log, summary_path. intros H. apply app_inv_head in H.
  injection H as H.
  change "band_suite_summary.json" with ("band_suite_summary." +:+ "json")
    in H.
  apply append_same_length_inj in H; [discriminate | reflexivity].
Qed.

Lemma band_log_not_failures (out c : path) :
  band_log out c <> failures_path out.
Proof.
  unfold band_log, failures_path. intros H. apply app_inv_head in H.
  injection H as H.
  change "band_suite_failures.txt" with ("band_suite_failures" +:+ ".txt")
    in H.
  apply append_same_length_inj in H; [discriminate | reflexivity].
Qed.

Lemma failures_not_summary (out : path) : failures_path out <> summary_path out.
Proof.
  unfold failures_path, summary_path. intros H. apply app_inv_head in H.
  discriminate.
Qed.

Lemma snoc_prefix_snoc {A} (l : list A) (x y : A) (k : list A) :
  (l ++ [x]) `prefix_of` (l ++ y :: k) -> x = y.
Proof.
  intros [rest H]. rewrite <- app_assoc in H. apply app_inv_head in H.
  now injection H.
Qed.

Lemma snoc_not_prefix {A} (l : list A) (x : A) : ~ (l ++ [x]) `prefix_of` l.
Proof.
  intros [rest H]. apply (f_equal (@length A)) in H.
  rewrite !length_app in H. simpl in H. lia.
Qed.

(** The failure list is not on the way to a band's output directory. *)
Lemma failures_not_prefix_band_dir (out c : path) :
  ~ failures_path out `prefix_of` band_dir out c.
Proof.
  unfold failures_path, band_dir. intros H. apply snoc_prefix_snoc in H.
  change "sost_out_" with (String "s" "ost_out_") in H.
  rewrite append_cons in H. discriminate.
Qed.

Lemma failures_not_prefix_out (out : path) :
  ~ failures_path out `prefix_of` out.
Proof. apply snoc_not_prefix. Qed.

(* ================================================================== *)
(** * The trace of a run that reached the aggregation *)

Section SuiteTrace.
Context `{P : Platform}.
Variables (args_pattern args_outdir : string) (cwd : path).
Variable environ : gmap string string.
Variables (hrc : Z) (hout : string) (matched : list path).
Variables (rs : list BandResult) (evs : list event).
Variables (now : datetime) (code : Z).

Local Abbreviation out := (out_root cwd args_outdir).
Local Abbreviation tr :=
  (suite_trace args_pattern args_outdir cwd environ hrc hout matched rs evs
               now code).

Hypothesis Hloop :
  loop_result (tool_path cwd) (pick_flags hout) out (sorted matched) rs evs.

Lemma loop_result_length : length rs = length matched.
Proof.
  destruct Hloop as (Hb & _). apply (f_equal (@length string)) in Hb.
  rewrite !length_map, sorted_length in Hb. exact Hb.
Qed.

Lemma loop_writes_logs (q : path) :
  (forall c, band_log out c <> q) -> written_to q evs = [].
Proof.
  intros Hq. apply written_to_others.
  destruct Hloop as (_ & _ & _ & -> & _).
  apply List.Forall_forall. intros p [c [<- _]]%in_map_iff. apply Hq.
Qed.

Lemma suite_trace_globs : globs tr = [matched].
Proof.
  unfold suite_trace. rewrite !globs_app.
  destruct Hloop as (_ & _ & _ & _ & ->).
  now destruct (code =? 0)%Z.
Qed.

Lemma suite_trace_spawns :
  spawns tr =
  (help_cmd (tool_path cwd), hrc) ::
  combine (map (fixture_cmd (tool_path cwd) (pick_flags hout) out)
               (sorted matched))
          (map rc rs).
Proof.
  unfold suite_trace. rewrite !spawns_app.
  destruct Hloop as (_ & _ & -> & _).
  destruct (code =? 0)%Z; cbn; now rewrite app_nil_r.
Qed.

Lemma suite_trace_outputs : exists logs, outputs tr = hout :: logs.
Proof.
  unfold suite_trace. rewrite !outputs_app. cbn. eauto.
Qed.

Lemma suite_trace_summary :
  written_to (summary_path out) tr =
  [summary_text args_pattern (pick_flags hout) now rs].
Proof.
  unfold suite_trace. rewrite !written_to_app.
  rewrite (loop_writes_logs (summary_path out))
    by (intros c; apply band_log_not_summary).
  destruct (code =? 0)%Z; cbn.
  - now destruct (decide (summary_path out = summary_path out)).
  - destruct (decide (summary_path out = summary_path out)); [| congruence].
    destruct (decide (failures_path out = summary_path out)) as [E|_];
      [now apply failures_not_summary in E | reflexivity].
Qed.

Lemma suite_trace_failures :
  written_to (failures_path out) tr =
  if (code =? 0)%Z then [] else [failures_text rs].
Proof.
  unfold suite_trace. rewrite !written_to_app.
  rewrite (loop_writes_logs (failures_path out))
    by (intros c; apply band_log_not_failures).
  destruct (code =? 0)%Z; cbn.
  - destruct (decide (summary_path out = failures_path out)) as [E|_];
      [symmetry in E; now apply failures_not_summary in E | reflexivity].
  - destruct (decide (summary_path out = failures_path out)) as [E|_];
      [symmetry in E; now apply failures_not_summary in E |].
    now destruct (decide (failures_path out = failures_path out)).
Qed.

End SuiteTrace.

Section RunTrace.
Context `{P : Platform}.

(** A run that completes with a status other than 2 has the trace of the
    aggregation. *)
Lemma run_trace (args_pattern args_outdir : string) (cwd : path)
    (environ : gmap string string) (x : ext) (m : fs)
    (code : Z) (w' : world) :
  run args_pattern args_outdir cwd environ x m = Done code w' ->
  code <> 2%Z ->
  exists hrc hout matched rs evs now,
    matched <> [] /\
    loop_result (tool_path cwd) (pick_flags hout)
                (out_root cwd args_outdir) (sorted matched) rs evs /\
    (code = 0%Z /\ failure_lines rs = [] \/
     code = 1%Z /\ failure_lines rs <> []) /\
    w_trace w' =
      suite_trace args_pattern args_outdir cwd environ hrc hout matched
                  rs evs now code.
Proof.
  intros H Hcode.
  apply run_Done in H as (m1 & _ & [(_ & -> & _) | (_ & H)]);
    [congruence |].
  destruct H as (hrc & hout & x2 & m2 & _ & [(_ & -> & _) | (Hne & H)]);
    [congruence |].
  apply run_suite_Done in H
    as (rs & evs & w3 & m4 & _ & _ & Hres & _ & _ & Htail).
  exists hrc, hout, (glob m2 cwd args_pattern), rs, evs, (now_utc (w_ext w3)).
  split; [exact Hne |]. split; [exact Hres |].
  unfold suite_trace.
  destruct Htail as [(Hl & -> & _ & ->) | (Hl & -> & _ & ->)]; cbn [w_trace];
    (split; [auto | reflexivity]).
Qed.

(** A run that completes with status 2 ran no fixture and wrote no
    summary. *)
Lemma run_config_error_trace (args_pattern args_outdir : string)
    (cwd : path) (environ : gmap string string) (x : ext) (m : fs)
    (w' : world) :
  run args_pattern args_outdir cwd environ x m = Done 2%Z w' ->
  w_trace w' =
    [EvMkdir (out_root cwd args_outdir);
     EvExists (tool_path cwd) false;
     EvWrite (failures_path (out_root cwd args_outdir)) missing_note;
     EvPrint "Missing scripts/run_sost.py"] \/
  exists hrc hout,
    w_trace w' =
      head_events args_pattern args_outdir cwd environ hrc hout [] ++
      [EvWrite (failures_path (out_root cwd args_outdir))
               (no_match_note args_pattern);
       EvPrint ("No CSV matched pattern: " +:+ args_pattern)].
Proof.
  intros H.
  apply run_Done in H as (m1 & _ & [(_ & _ & _ & _ & Ht) | (_ & H)]);
    [now left |].
  destruct H as (hrc & hout & x2 & m2 & _ & [(_ & _ & _ & _ & Ht) | (_ & H)]).
  - right. now exists hrc, hout.
  - apply run_suite_Done in H
      as (rs & evs & w3 & m4 & _ & _ & _ & _ & _ & Htail).
    destruct Htail as [(_ & ? & _) | (_ & ? & _)]; discriminate.
Qed.

End RunTrace.

(** C4.  Flag detection picks, for the input flag and for the output
    flag, the first alias in preference order that occurs in the help
    text.  A help text in which [--input-csv] occurs yields exactly
    [--input-csv]; a help text in which no alias occurs yields no flag at
    all, and the command line of a fixture is then the interpreter, the
    tool and the fixture path, with no output-directory flag. *)
Theorem pick_flags_first_in_preference_order `{P : Platform}
    (help_text : string) :
  input_candidates = ["--input-csv"; "--input_csv"; "--input"; "-i"] /\
  outdir_candidates = ["--outdir"; "--out-dir"; "--output-dir"; "-o"] /\
  (forall c, fst (pick_flags help_text) = Some c <->
             first_occurring input_candidates help_text c) /\
  (forall c, snd (pick_flags help_text) = Some c <->
             first_occurring outdir_candidates help_text c) /\
  (occurs "--input-csv" help_text ->
   fst (pick_flags help_text) = Some "--input-csv") /\
  (Forall (fun c => ~ occurs c help_text)
          (input_candidates ++ outdir_candidates) ->
   pick_flags help_text = (None, None) /\
   forall run_sost csv_path band_out,
     build_cmd run_sost (fst (pick_flags help_text))
               (snd (pick_flags help_text)) csv_path band_out =
     [executable; path_str run_sost; path_str csv_path]).
Proof.
  split; [reflexivity |]. split; [reflexivity |].
  split; [intros c; apply first_candidate_Some |].
  split; [intros c; apply first_candidate_Some |].
  split.
  - intros Hin. apply str_in_spec in Hin.
    unfold pick_flags, input_candidates. cbn [fst first_candidate].
    now rewrite Hin.
  - intros Hall. apply Forall_app in Hall as [Hi Ho].
    apply first_candidate_None in Hi, Ho.
    unfold pick_flags. rewrite Hi, Ho. split; reflexivity.
Qed.

Lemma pick_flags_first_in_preference_order_witness :
  fst (pick_flags Demo.usage) = Some "--input-csv" /\
  pick_flags "usage: run_sost.py FILE" = (None, None).
Proof.
  split.
  - apply (@pick_flags_first_in_preference_order
             (Demo.platform Demo.usage) Demo.usage).
    apply str_in_spec. reflexivity.
  - apply (@pick_flags_first_in_preference_order
             (Demo.platform Demo.usage) "usage: run_sost.py FILE").
    repeat constructor; apply str_in_false; reflexivity.
Defined.

(** C9.  An alias is detected wherever its characters occur in the help
    text, inside a longer word as well: a text with the word [--inputs]
    yields the input flag [--input] and a text with the word [--ignore]
    yields [-i], although no alias is a word of either text. *)
Theorem pick_flags_matches_inside_words :
  (forall text c, In c input_candidates -> occurs c text ->
                  exists c', fst (pick_flags text) = Some c' /\
                             In c' input_candidates) /\
  (Forall (fun a => ~ In a (split_on " " "tool --inputs A B"))
          (input_candidates ++ outdir_candidates) /\
   pick_flags "tool --inputs A B" = (Some "--input", None)) /\
  (Forall (fun a => ~ In a (split_on " " "tool --ignore FILE"))
          (input_candidates ++ outdir_candidates) /\
   pick_flags "tool --ignore FILE" = (Some "-i", None)).
Proof.
  split.
  - intros text c Hin Hocc.
    destruct (first_candidate input_candidates text) as [c'|] eqn:E.
    + exists c'. split; [exact E |].
      apply first_candidate_Some in E as (earlier & later & -> & _).
      apply in_or_app. right. now left.
    + apply first_candidate_None in E.
      rewrite List.Forall_forall in E. now apply E in Hin.
  - split; (split; [| reflexivity]);
      repeat constructor; cbv; intuition discriminate.
Qed.

Lemma pick_flags_matches_inside_words_witness :
  exists c', fst (pick_flags "see --input_csvfile") = Some c' /\
             In c' input_candidates.
Proof.
  apply (proj1 pick_flags_matches_inside_words
               "see --input_csvfile" "--input_csv").
  - right. left. reflexivity.
  - apply str_in_spec. reflexivity.
Defined.

(** C8.  The smoke test passes exactly for a library that imports and
    has a [__version__] that is a non-empty string, such as ["1.0.0"];
    it fails when the import raises, when the attribute is missing, when
    it is not a string and when it is the empty string. *)
Theorem smoke_test_passes_iff_nonempty_version :
  (forall imp,
     Smoke.test_import_sost_and_version imp = Smoke.Passed <->
     exists sost s, imp = Smoke.Imported sost /\
                    sost !! "__version__" = Some (Smoke.PyStr s) /\
                    s <> EmptyString) /\
  (forall error, Smoke.fails (Smoke.ImportRaises error)) /\
  (forall sost, sost !! "__version__" = None ->
                Smoke.fails (Smoke.Imported sost)) /\
  (forall sost v, sost !! "__version__" = Some v ->
                  Smoke.isinstance_str v = false ->
                  Smoke.fails (Smoke.Imported sost)) /\
  (forall sost, sost !! "__version__" = Some (Smoke.PyStr EmptyString) ->
                Smoke.fails (Smoke.Imported sost)) /\
  Smoke.test_import_sost_and_version
    (Smoke.Imported {["__version__" := Smoke.PyStr "1.0.0"]}) = Smoke.Passed.
Proof.
  assert (Hiff : forall imp,
     Smoke.test_import_sost_and_version imp = Smoke.Passed <->
     exists sost s, imp = Smoke.Imported sost /\
                    sost !! "__version__" = Some (Smoke.PyStr s) /\
                    s <> EmptyString).
  { intros [error | sost]; unfold Smoke.test_import_sost_and_version.
    - split; [discriminate | intros (? & ? & ? & _); discriminate].
    - unfold Smoke.hasattr.
      destruct (sost !! "__version__") as [v|] eqn:E; cbn.
      + destruct v as [| b | z | s | s | items]; cbn;
          try (split; [discriminate |];
               intros (? & ? & [= <-] & H & _); congruence).
        destruct s as [|a s]; cbn.
        * split; [discriminate |].
          intros (? & ? & [= <-] & H & Hne). congruence.
        * split; [intros _ | reflexivity].
          exists sost, (String a s).
          split; [reflexivity | split; [exact E | discriminate]].
      + split; [discriminate |].
        intros (? & ? & [= <-] & H & _). congruence. }
  split; [exact Hiff |].
  unfold Smoke.fails. repeat split.
  - intros error H. discriminate.
  - intros sost E H. apply Hiff in H as (? & s & [= <-] & H & _). congruence.
  - intros sost v E Hv H. apply Hiff in H as (? & s & [= <-] & H & _).
    rewrite E in H. injection H as ->. discriminate.
  - intros sost E H. apply Hiff in H as (? & s & [= <-] & H & Hne).
    rewrite E in H. injection H as <-. now apply Hne.
Qed.

Lemma smoke_test_passes_iff_nonempty_version_witness :
  Smoke.fails (Smoke.Imported {["version" := Smoke.PyStr "1.0.0"]}) /\
  Smoke.fails (Smoke.Imported {["__version__" := Smoke.PyTuple
                                  [Smoke.PyInt 1; Smoke.PyInt 0]]}).
Proof.
  split.
  - apply (proj1 (proj2 (proj2 smoke_test_passes_iff_nonempty_version))).
    reflexivity.
  - apply (proj1 (proj2 (proj2 (proj2
             smoke_test_passes_iff_nonempty_version)))
             _ (Smoke.PyTuple [Smoke.PyInt 1; Smoke.PyInt 0]));
      reflexivity.
Defined.

(* ================================================================== *)
(** * Failing bands *)

Lemma failure_lines_nil (rs : list BandResult) :
  failure_lines rs = [] <-> forall r, In r rs -> rc r = 0%Z.
Proof.
  unfold failure_lines. induction rs as [|r rs IH]; simpl.
  - split; [intros _ r [] | reflexivity].
  - unfold failing at 1. destruct (rc r =? 0)%Z eqn:E; simpl.
    + apply Z.eqb_eq in E. rewrite IH. split.
      * intros H r' [<- | Hr']; auto.
      * intros H r' Hr'. apply H. now right.
    + apply Z.eqb_neq in E. split; [discriminate |].
      intros H. exfalso. apply E, H. now left.
Qed.

Lemma failing_spec (r : BandResult) : failing r = true <-> rc r <> 0%Z.
Proof.
  unfold failing. rewrite negb_true_iff. apply Z.eqb_neq.
Qed.

Lemma failure_lines_not_nil (rs : list BandResult) :
  failure_lines rs <> [] <-> exists r, In r rs /\ rc r <> 0%Z.
Proof.
  unfold failure_lines. split.
  - destruct (List.filter failing rs) as [|r l] eqn:E;
      [intros H; now elim H |].
    intros _. exists r.
    assert (Hr : In r (List.filter failing rs)) by (rewrite E; now left).
    apply filter_In in Hr as [Hin Hf]. split; [exact Hin |].
    now apply failing_spec.
  - intros (r & Hin & Hrc) H.
    assert (Hr : In r (List.filter failing rs)).
    { apply filter_In. split; [exact Hin | now apply failing_spec]. }
    destruct (List.filter failing rs); [destruct Hr | discriminate].
Qed.



(* ================================================================== *)
(** * Further properties of the driver *)

(** The exit status of a completed run is 0, 1 or 2; it is 2 exactly
    when no summary was written, and then no fixture was run: at most the
    help probe was. *)
Theorem run_exit_status `{P : Platform}
    (args_pattern args_outdir : string) (cwd : path)
    (environ : gmap string string) (x : ext) (m : fs)
    (code : Z) (w' : world) :
  run args_pattern args_outdir cwd environ x m = Done code w' ->
  (code = 0%Z \/ code = 1%Z \/ code = 2%Z) /\
  (code = 2%Z <->
   written_to (summary_path (out_root cwd args_outdir)) (w_trace w') = []) /\
  (code = 2%Z ->
   map fst (spawns (w_trace w')) = [] \/
   map fst (spawns (w_trace w')) = [help_cmd (tool_path cwd)]).
Proof.
  intros H. destruct (Z.eq_dec code 2%Z) as [-> | Hcode].
  - split; [auto |].
    apply run_config_error_trace in H as [-> | (hrc & hout & ->)].
    + split; [| now left]. split; [intros _ | reflexivity].
      cbn. destruct (decide (_ = _)) as [E|_]; [| reflexivity].
      now apply failures_not_summary in E.
    + split; [| now right]. split; [intros _ | reflexivity].
      cbn. destruct (decide (_ = _)) as [E|_]; [| reflexivity].
      now apply failures_not_summary in E.
  - apply run_trace in H
      as (hrc & hout & matched & rs & evs & now & _ & Hloop & Hcases & ->);
      [| exact Hcode].
    split; [destruct Hcases as [[-> _] | [-> _]]; auto |].
    split; [| congruence].
    rewrite (suite_trace_summary _ _ _ _ _ _ _ _ _ _ _ Hloop).
    split; [congruence | discriminate].
Qed.

Lemma run_exit_status_witness :
  (1 = 0 \/ 1 = 1 \/ 1 = 2)%Z /\
  ((1 = 2)%Z <->
   written_to (summary_path (@out_root (Demo.platform Demo.usage) Demo.repo Demo.default_outdir))
              (w_trace (Demo.demo_world Demo.usage Demo.mixed_fs)) = []).
Proof.
  destruct (@run_exit_status (Demo.platform Demo.usage)
              Demo.default_pattern Demo.default_outdir Demo.repo ∅
              Demo.noon Demo.mixed_fs 1%Z
              (Demo.demo_world Demo.usage Demo.mixed_fs))
    as (H1 & H2 & _).
  - vm_compute. reflexivity.
  - split; [exact H1 | exact H2].
Defined.

(** A regular file on the way stops the walk. *)
Lemma mkdir_walk_blocked (todo : path) :
  forall (done : path) (m : fs) (k : nat) (content : string),
  (k < length todo)%nat ->
  m !! (done ++ take (S k) todo) = Some (File content) ->
  exists e, mkdir_walk done todo m = inl e.
Proof.
  induction todo as [|c todo IH]; intros done m k content Hk Hfile;
    simpl in Hk; [lia |].
  cbn [mkdir_walk].
  destruct k as [|k].
  - change (take 1 (c :: todo)) with [c] in Hfile. rewrite Hfile. eauto.
  - assert (Hq : done ++ take (S (S k)) (c :: todo) =
                 (done ++ [c]) ++ take (S k) todo).
    { change (take (S (S k)) (c :: todo)) with (c :: take (S k) todo).
      now rewrite <- app_assoc. }
    rewrite Hq in Hfile.
    assert (Hne : done ++ [c] <> (done ++ [c]) ++ take (S k) todo).
    { intros E. apply (f_equal (@length string)) in E.
      rewrite !length_app in E. destruct todo; simpl in *; lia. }
    destruct (m !! (done ++ [c])) as [[?|]|] eqn:E; [eauto | |].
    + apply (IH _ _ k content); [lia | exact Hfile].
    + apply (IH _ _ k content); [lia |].
      rewrite lookup_insert_ne; [exact Hfile | exact Hne].
Qed.

(** When a regular file stands at the output root or on the way to it,
    the driver raises at once: it probes nothing, runs nothing, writes
    nothing and leaves the file system as it found it. *)
Theorem run_raises_when_outdir_is_blocked `{P : Platform}
    (args_pattern args_outdir : string) (cwd : path)
    (environ : gmap string string) (x : ext) (m : fs)
    (q : path) (content : string) :
  q <> [] ->
  q `prefix_of` out_root cwd args_outdir ->
  m !! q = Some (File content) ->
  exists e,
    run args_pattern args_outdir cwd environ x m = Raised e (World x m []).
Proof.
  intros Hq [rest Hout] Hfile.
  assert (Hblocked : exists e,
            fs_mkdir_parents m (out_root cwd args_outdir) = inl e).
  { destruct q as [|c q]; [congruence |].
    apply (mkdir_walk_blocked _ [] m (length q) content).
    - rewrite Hout, length_app. simpl. lia.
    - rewrite Hout. cbn [app].
      replace (take (S (length q)) (c :: q ++ rest)) with (c :: q);
        [exact Hfile |].
      change (take (S (length q)) (c :: q ++ rest))
        with (c :: take (length q) (q ++ rest)).
      f_equal. now rewrite take_app_length. }
  destruct Hblocked as [e He]. exists e.
  unfold run, main, bind, mkdir_parents.
  fold (out_root cwd args_outdir). cbn [w_fs]. now rewrite He.
Qed.

Lemma run_raises_when_outdir_is_blocked_witness :
  exists e,
    @run (Demo.platform Demo.usage) Demo.default_pattern
         "test_data/band_low.csv/out" Demo.repo ∅ Demo.noon Demo.good_fs =
    Raised e (@World (Demo.platform Demo.usage) Demo.noon Demo.good_fs []).
Proof.
  apply (@run_raises_when_outdir_is_blocked (Demo.platform Demo.usage)
           Demo.default_pattern "test_data/band_low.csv/out" Demo.repo ∅
           Demo.noon Demo.good_fs
           ["work"; "test_data"; "band_low.csv"] "t,x").
  - discriminate.
  - exists ["out"]. reflexivity.
  - reflexivity.
Defined.

(** A turn of the loop that completes has created the band's output
    directory before it starts the tool, has started the tool once, has
    left the tool's captured output in the band's log file, and has
    appended one record that names the band after the fixture's stem and
    carries the tool's return code and the paths of the output directory
    and of the log; a line is added to the failures exactly when the
    return code is not 0. *)
Theorem band_step_runs_tool_and_keeps_log `{P : Platform}
    (repo out run_sost : path) (env : gmap string string)
    (flags : option string * option string)
    (results : list BandResult) (failures : list string) (c : path)
    (w w' : world) (st' : list BandResult * list string) :
  run_band repo out run_sost env (fst flags) (snd flags)
           (results, failures) c w = Done st' w' ->
  exists (r : BandResult) (log : string) (m1 : fs),
    fs_mkdir_parents (w_fs w) (band_dir out c) = inr m1 /\
    fs_lookup m1 (band_dir out c) = Some Dir /\
    fst (fst (spawn (fixture_cmd run_sost flags out c) repo env
                    (w_ext w) m1)) = (rc r, log) /\
    spawns (skipn (length (w_trace w)) (w_trace w')) =
      [(fixture_cmd run_sost flags out c, rc r)] /\
    w_fs w' !! band_log out c = Some (File log) /\
    fst st' = results ++ [r] /\
    band r = path_stem c /\ csv r = path_str c /\
    outdir r = path_str (band_dir out c) /\
    log_file r = path_str (band_log out c) /\
    snd st' = (if (rc r =? 0)%Z then failures
               else failures ++ [band_failure_line r]).
Proof.
  intros H.
  apply run_band_Done in H
    as (code & log & reps & m1 & m2 & evs & Hm1 & Hsp & Hwr & Ht & _ &
        Hsps & _ & _ & _ & _ & ->).
  exists (mkBandResult (path_stem c) (path_str c) code
            (path_str (band_dir out c)) reps (path_str (band_log out c))),
    log, m1.
  split; [exact Hm1 |].
  split; [now apply fs_mkdir_parents_dir in Hm1 |].
  split; [now rewrite Hsp |].
  split.
  { rewrite Ht, drop_app_length, spawns_app, Hsps. reflexivity. }
  split; [now apply fs_write_text_lookup in Hwr |].
  repeat split.
Qed.

Lemma band_step_runs_tool_and_keeps_log_witness :
  exists (r : BandResult) (log : string),
    w_fs (final_world
            (Demo.band_step ["work"; "test_data"; "band_low.csv"]
                            Demo.ready_fs))
      !! band_log Demo.out ["work"; "test_data"; "band_low.csv"] =
      Some (File log) /\
    band r = "band_low" /\
    log_file r = "/work/_ci_out/band_low.log".
Proof.
  destruct (@band_step_runs_tool_and_keeps_log (Demo.platform Demo.usage)
              Demo.repo Demo.out (tool_path Demo.repo) ∅
              (Some "--input-csv", Some "--outdir") [] []
              ["work"; "test_data"; "band_low.csv"]
              (@World (Demo.platform Demo.usage) Demo.noon Demo.ready_fs [])
              (final_world
                 (Demo.band_step ["work"; "test_data"; "band_low.csv"]
                                 Demo.ready_fs))
              (returned
                 (Demo.band_step ["work"; "test_data"; "band_low.csv"]
                                 Demo.ready_fs) ([], [])))
    as (r & log & m1 & _ & _ & _ & _ & Hlog & _ & Hb & _ & _ & Hl & _).
  - vm_compute. reflexivity.
  - exists r, log. split; [exact Hlog |]. split; [exact Hb | exact Hl].
Defined.

Lemma collect_reports_raises_on_directory `{P : Platform}
    (band_out : path) (names : list string) :
  forall (acc : list (string * ReportEntry)) (w : world) (n : string),
  In n names ->
  w_fs w !! (band_out ++ [n]) = Some Dir ->
  exists n0 w1,
    In n0 names /\
    w_fs w !! (band_out ++ [n0]) = Some Dir /\
    collect_reports band_out names acc w =
      Raised (IsADirectoryError (band_out ++ [n0])) w1 /\
    w_fs w1 = w_fs w /\ w_ext w1 = w_ext w.
Proof.
  induction names as [|name names IH]; intros acc w n Hin Hdir;
    [destruct Hin |].
  cbn [collect_reports]. unfold bind at 1, path_exists.
  set (p := band_out ++ [name]).
  set (w1 := log_event (EvExists p (fs_exists (w_fs w) p)) w).
  assert (Hlk : fs_lookup (w_fs w) p = w_fs w !! p) by apply fs_lookup_snoc.
  destruct (w_fs w !! p) as [[bytes|]|] eqn:Hp.
  - (* a regular file: it is read, the loop goes on *)
    assert (Hn : In n names).
    { destruct Hin as [<- | Hn]; [| exact Hn]. fold p in Hdir. congruence. }
    assert (Hex : fs_exists (w_fs w) p = true)
      by (unfold fs_exists; now rewrite Hlk).
    rewrite Hex.
    unfold bind at 1, sha256_file, bind at 1, read_bytes, fs_read_bytes.
    change (w_fs w1) with (w_fs w). rewrite Hlk. unfold ret.
    edestruct (IH (dict_set name
                     (mkReportEntry (path_str p) (sha256_hexdigest bytes))
                     acc)
                  (log_event (EvRead p bytes) w1) n Hn Hdir)
      as (n0 & w2 & Hn0 & Hd0 & Hr & Hfs & Hx).
    exists n0, w2. split; [now right |]. split; [exact Hd0 |].
    split; [exact Hr |]. split; [exact Hfs | exact Hx].
  - (* a directory: [exists] says yes and the read raises *)
    assert (Hex : fs_exists (w_fs w) p = true)
      by (unfold fs_exists; now rewrite Hlk).
    rewrite Hex.
    unfold bind at 1, sha256_file, bind at 1, read_bytes, fs_read_bytes.
    change (w_fs w1) with (w_fs w). rewrite Hlk.
    exists name, w1. split; [now left |]. split; [exact Hp |].
    split; [reflexivity |]. split; reflexivity.
  - (* nothing there: the name is skipped, the loop goes on *)
    assert (Hn : In n names).
    { destruct Hin as [<- | Hn]; [| exact Hn]. fold p in Hdir. congruence. }
    assert (Hex : fs_exists (w_fs w) p = false)
      by (unfold fs_exists; now rewrite Hlk).
    rewrite Hex.
    edestruct (IH acc w1 n Hn Hdir) as (n0 & w2 & Hn0 & Hd0 & Hr & Hfs & Hx).
    exists n0, w2. split; [now right |]. split; [exact Hd0 |].
    split; [exact Hr |]. split; [exact Hfs | exact Hx].
Qed.

(** A directory that bears the name of a report is not skipped like a
    missing report: [exists] answers yes for it, reading it raises, and
    the report loop ends on [IsADirectoryError] for a report name that is a
    directory, having changed nothing in the file system. *)
Theorem report_directory_raises `{P : Platform} (band_out : path)
    (w : world) (n : string) :
  In n report_names ->
  w_fs w !! (band_out ++ [n]) = Some Dir ->
  exists n0 w1,
    In n0 report_names /\
    w_fs w !! (band_out ++ [n0]) = Some Dir /\
    collect_reports band_out report_names [] w =
      Raised (IsADirectoryError (band_out ++ [n0])) w1 /\
    w_fs w1 = w_fs w /\ w_ext w1 = w_ext w.
Proof. apply collect_reports_raises_on_directory. Qed.

Lemma report_directory_raises_witness :
  exists n0 w1,
    In n0 report_names /\
    @collect_reports (Demo.platform Demo.usage) Demo.out report_names []
      (@World (Demo.platform Demo.usage) Demo.noon
              (<[Demo.out ++ ["ddr_report.json"] := Dir]> Demo.ready_fs) []) =
      Raised (IsADirectoryError (Demo.out ++ [n0])) w1.
Proof.
  destruct (@report_directory_raises (Demo.platform Demo.usage) Demo.out
              (@World (Demo.platform Demo.usage) Demo.noon
                 (<[Demo.out ++ ["ddr_report.json"] := Dir]> Demo.ready_fs)
                 [])
              "ddr_report.json")
    as (n0 & w1 & Hn0 & _ & Hr & _).
  - right. left. reflexivity.
  - reflexivity.
  - exists n0, w1. split; [exact Hn0 | exact Hr].
Defined.

Lemma spawn_contexts_app (a b : list event) :
  spawn_contexts (a ++ b) = spawn_contexts a ++ spawn_contexts b.
Proof. apply flat_map_app. Qed.

Lemma spawn_contexts_no_spawns (tr : list event) :
  spawns tr = [] -> spawn_contexts tr = [].
Proof.
  induction tr as [|e tr IH]; [reflexivity |].
  destruct e; cbn; try exact IH. discriminate.
Qed.

(** Every command of the loop runs in [repo] with [env]. *)
Lemma for_each_contexts `{P : Platform} (repo out run_sost : path)
    (env : gmap string string) (flags : option string * option string)
    (csvs : list path) :
  forall (st st' : list BandResult * list string) (w w' : world),
  for_each (run_band repo out run_sost env (fst flags) (snd flags))
           csvs st w = Done st' w' ->
  exists evs,
    w_trace w' = w_trace w ++ evs /\
    Forall (fun ctx => ctx = (repo, env)) (spawn_contexts evs).
Proof.
  induction csvs as [|c csvs IH]; intros [results failures] st' w w' H.
  - injection H as <- <-. exists []. rewrite app_nil_r. now split.
  - cbn [for_each] in H.
    apply bind_Done in H as (st1 & w1 & H1 & H).
    apply run_band_Done in H1
      as (code & log & reps & m1 & m2 & evs1 & _ & _ & _ & Ht1 & _ &
          Hsp1 & _ & _ & _ & _ & _).
    apply IH in H as (evs & Ht & Hall).
    exists ([EvMkdir (band_dir out c);
             EvSpawn (fixture_cmd run_sost flags out c) repo env code log;
             EvWrite (band_log out c) log] ++ evs1 ++ evs).
    split; [rewrite Ht, Ht1, <- !app_assoc; reflexivity |].
    rewrite !spawn_contexts_app, (spawn_contexts_no_spawns _ Hsp1).
    cbn. constructor; [reflexivity | exact Hall].
Qed.

(** Every process the driver starts, the help probe and each fixture's
    run, is started in the repository root with one environment: the
    caller's, in which [PYTHONPATH] is the repository root, followed by
    the caller's own [PYTHONPATH] after a colon when it had one; every
    other variable is passed on as it is. *)
Theorem children_run_in_repo_with_pythonpath `{P : Platform}
    (args_pattern args_outdir : string) (cwd : path)
    (environ : gmap string string) (x : ext) (m : fs)
    (code : Z) (w' : world) :
  run args_pattern args_outdir cwd environ x m = Done code w' ->
  Forall (fun ctx => ctx = (cwd, child_env cwd environ))
         (spawn_contexts (w_trace w')) /\
  child_env cwd environ !! "PYTHONPATH" =
    Some (path_str cwd +:+
          match environ !! "PYTHONPATH" with
          | Some old => ":" +:+ old
          | None => EmptyString
          end) /\
  (forall k, k <> "PYTHONPATH" -> child_env cwd environ !! k = environ !! k).
Proof.
  intros H. split; [| split].
  - apply run_Done in H as (m1 & _ & [(_ & _ & _ & _ & ->) | (_ & H)]);
      [constructor |].
    destruct H
      as (hrc & hout & x2 & m2 & _ & [(_ & _ & _ & _ & ->) | (_ & H)]).
    + cbn. repeat constructor.
    + apply run_suite_Done in H
        as (rs & evs & w3 & m4 & Hloop & Ht3 & _ & _ & _ & Htail).
      apply for_each_contexts in Hloop as (evs' & Ht3' & Hall).
      rewrite Ht3 in Ht3'. apply app_inv_head in Ht3' as ->.
      cbn [w_trace] in Htail.
      destruct Htail as [(_ & _ & _ & ->) | (_ & _ & _ & ->)];
        rewrite !spawn_contexts_app; cbn; rewrite app_nil_r;
        (constructor; [reflexivity | exact Hall]).
  - unfold child_env. apply lookup_insert_eq.
  - intros k Hk. unfold child_env. now apply lookup_insert_ne.
Qed.

Lemma children_run_in_repo_with_pythonpath_witness :
  Forall (fun ctx => ctx = (Demo.repo, child_env Demo.repo ∅))
         (spawn_contexts (w_trace (Demo.demo_world Demo.usage Demo.mixed_fs)))
  /\ child_env Demo.repo ∅ !! "PYTHONPATH" = Some "/work".
Proof.
  destruct (@children_run_in_repo_with_pythonpath
              (Demo.platform Demo.usage)
              Demo.default_pattern Demo.default_outdir Demo.repo ∅
              Demo.noon Demo.mixed_fs 1%Z
              (Demo.demo_world Demo.usage Demo.mixed_fs))
    as (Hall & Hpp & _).
  - vm_compute. reflexivity.
  - split; [exact Hall |]. rewrite Hpp. reflexivity.
Defined.

Lemma prefix_snoc_inv {A} (q l : list A) (x : A) :
  q `prefix_of` (l ++ [x]) -> q `prefix_of` l \/ q = l ++ [x].
Proof.
  intros [k Hk]. destruct k as [|y k _] using rev_ind.
  - right. now rewrite app_nil_r in Hk.
  - left. rewrite app_assoc in Hk. apply app_inj_tail in Hk as [-> _].
    now exists k.
Qed.

Section Frame.
Context `{P : Platform}.
Variables (out q : path).
Hypothesis Hkeeps : tool_keeps q.
Hypothesis Hnot_above : ~ q `prefix_of` out.
Hypothesis Hnot_below : ~ out `prefix_of` q.

Lemma outside_not_child (name : string) : q <> out ++ [name].
Proof. intros ->. apply Hnot_below. now exists [name]. Qed.

Lemma outside_not_above_child (name : string) :
  ~ q `prefix_of` (out ++ [name]).
Proof.
  intros [H | H]%prefix_snoc_inv; [now apply Hnot_above |].
  now apply (outside_not_child name).
Qed.

Lemma run_band_frame (repo run_sost : path) (env : gmap string string)
    (flags : option string * option string)
    (st st' : list BandResult * list string) (c : path) (w w' : world) :
  run_band repo out run_sost env (fst flags) (snd flags) st c w =
    Done st' w' ->
  w_fs w' !! q = w_fs w !! q.
Proof.
  destruct st as [results failures]. intros H.
  apply run_band_Done in H
    as (code & log & reps & m1 & m2 & evs & Hm1 & Hsp & Hwr & _).
  rewrite (fs_write_text_frame _ _ _ q _ Hwr)
    by apply outside_not_child.
  pose proof (Hkeeps (fixture_cmd run_sost flags out c) repo env
                     (w_ext w) m1) as Hk.
  rewrite Hsp in Hk. cbn [snd] in Hk. rewrite Hk.
  apply (fs_mkdir_parents_frame _ _ _ _ Hm1), outside_not_above_child.
Qed.

Lemma for_each_frame (repo run_sost : path) (env : gmap string string)
    (flags : option string * option string) (csvs : list path) :
  forall (st st' : list BandResult * list string) (w w' : world),
  for_each (run_band repo out run_sost env (fst flags) (snd flags))
           csvs st w = Done st' w' ->
  w_fs w' !! q = w_fs w !! q.
Proof.
  induction csvs as [|c csvs IH]; intros st st' w w' H.
  - now injection H as _ <-.
  - cbn [for_each] in H.
    apply bind_Done in H as (st1 & w1 & H1 & H).
    rewrite (IH _ _ _ _ H). now apply run_band_frame in H1.
Qed.

End Frame.


